(** * Verification of the SentryOS desktop shell.

    Shallow embeddings of
    - the window manager ([src/components/desktop/WindowManager.tsx]),
    - the chat relay endpoint [POST /api/chat] ([src/app/api/chat/route.ts]),
    - the double-click classifier of the folder view
      ([src/components/desktop/apps/FolderView.tsx]),
    - the taskbar's window buttons ([src/components/desktop/Taskbar.tsx]),
    - the metrics wrapper ([src/lib/metrics.ts]). *)

From Stdlib Require Import String Ascii List ZArith Lia Bool.
Import ListNotations.
Open Scope Z_scope.

(* ------------------------------------------------------------------ *)
(** ** Window manager *)

Module WM.

(** [WindowState] of [types.ts]. The React node [content] is opaque to
    the manager; it is represented by a string. *)
Record WindowState := mkWindow {
  id : string;
  title : string;
  icon : string;
  x : Z;
  y : Z;
  width : Z;
  height : Z;
  minWidth : Z;
  minHeight : Z;
  isMinimized : bool;
  isMaximized : bool;
  isFocused : bool;
  zIndex : Z;
  content : string
}.

(** [Omit<WindowState, 'zIndex' | 'isFocused'>], the argument of
    [openWindow]. *)
Record WindowDesc := mkDesc {
  d_id : string;
  d_title : string;
  d_icon : string;
  d_x : Z;
  d_y : Z;
  d_width : Z;
  d_height : Z;
  d_minWidth : Z;
  d_minHeight : Z;
  d_isMinimized : bool;
  d_isMaximized : bool;
  d_content : string
}.

(** The provider's two pieces of React state: [windows] and [topZIndex]. *)
Record Manager := mkManager {
  windows : list WindowState;
  topZIndex : Z
}.

(** [useState<WindowState[]>([])] and [useState(100)]. *)
Definition initial : Manager := mkManager [] 100.

(** The object spreads used by the operations. *)

(** [{ ...w, isMinimized: false, isFocused: true, zIndex: newZ }] *)
Definition w_restore (newZ : Z) (w : WindowState) : WindowState :=
  mkWindow (id w) (title w) (icon w) (x w) (y w) (width w) (height w)
    (minWidth w) (minHeight w) false (isMaximized w) true newZ (content w).

(** [{ ...w, isFocused: true, zIndex: newZ }] *)
Definition w_focus (newZ : Z) (w : WindowState) : WindowState :=
  mkWindow (id w) (title w) (icon w) (x w) (y w) (width w) (height w)
    (minWidth w) (minHeight w) (isMinimized w) (isMaximized w) true newZ
    (content w).

(** [{ ...w, isFocused: false }] *)
Definition w_unfocus (w : WindowState) : WindowState :=
  mkWindow (id w) (title w) (icon w) (x w) (y w) (width w) (height w)
    (minWidth w) (minHeight w) (isMinimized w) (isMaximized w) false
    (zIndex w) (content w).

(** [{ ...w, isMinimized: true, isFocused: false }] *)
Definition w_minimize (w : WindowState) : WindowState :=
  mkWindow (id w) (title w) (icon w) (x w) (y w) (width w) (height w)
    (minWidth w) (minHeight w) true (isMaximized w) false (zIndex w)
    (content w).

(** [{ ...w, isMaximized: !w.isMaximized }] *)
Definition w_toggle_max (w : WindowState) : WindowState :=
  mkWindow (id w) (title w) (icon w) (x w) (y w) (width w) (height w)
    (minWidth w) (minHeight w) (isMinimized w) (negb (isMaximized w))
    (isFocused w) (zIndex w) (content w).

(** [{ ...w, x, y }] *)
Definition w_move (nx ny : Z) (w : WindowState) : WindowState :=
  mkWindow (id w) (title w) (icon w) nx ny (width w) (height w)
    (minWidth w) (minHeight w) (isMinimized w) (isMaximized w)
    (isFocused w) (zIndex w) (content w).

(** [{ ...w, width, height }] *)
Definition w_resize (nw nh : Z) (w : WindowState) : WindowState :=
  mkWindow (id w) (title w) (icon w) (x w) (y w) nw nh
    (minWidth w) (minHeight w) (isMinimized w) (isMaximized w)
    (isFocused w) (zIndex w) (content w).

(** [{ ...window, zIndex: newZ, isFocused: true }] *)
Definition of_desc (newZ : Z) (d : WindowDesc) : WindowState :=
  mkWindow (d_id d) (d_title d) (d_icon d) (d_x d) (d_y d) (d_width d)
    (d_height d) (d_minWidth d) (d_minHeight d) (d_isMinimized d)
    (d_isMaximized d) true newZ (d_content d).

(** [prev.map(w => w.id === i ? f(w) : g(w))] *)
Definition map_id (i : string) (f g : WindowState -> WindowState)
    (ws : list WindowState) : list WindowState :=
  map (fun w => if String.eqb (id w) i then f w else g w) ws.

(** [openWindow]: the [setTopZIndex] updater computes [newZ] and runs the
    [setWindows] updater with it. *)
Definition openWindow (d : WindowDesc) (m : Manager) : Manager :=
  let newZ := topZIndex m + 1 in
  let prev := windows m in
  let ws :=
    match find (fun w => String.eqb (id w) (d_id d)) prev with
    | Some existing =>
        if isMinimized existing
        then map_id (d_id d) (w_restore newZ) w_unfocus prev
        else map_id (d_id d) (w_focus newZ) w_unfocus prev
    | None => map w_unfocus prev ++ [of_desc newZ d]
    end in
  mkManager ws newZ.

(** [closeWindow]: [prev.filter(w => w.id !== id)]. *)
Definition closeWindow (i : string) (m : Manager) : Manager :=
  mkManager (filter (fun w => negb (String.eqb (id w) i)) (windows m))
    (topZIndex m).

Definition minimizeWindow (i : string) (m : Manager) : Manager :=
  mkManager (map_id i w_minimize (fun w => w) (windows m)) (topZIndex m).

Definition maximizeWindow (i : string) (m : Manager) : Manager :=
  mkManager (map_id i w_toggle_max (fun w => w) (windows m)) (topZIndex m).

Definition restoreWindow (i : string) (m : Manager) : Manager :=
  let newZ := topZIndex m + 1 in
  mkManager (map_id i (w_restore newZ) w_unfocus (windows m)) newZ.

Definition focusWindow (i : string) (m : Manager) : Manager :=
  let newZ := topZIndex m + 1 in
  mkManager (map_id i (w_focus newZ) w_unfocus (windows m)) newZ.

Definition updateWindowPosition (i : string) (nx ny : Z) (m : Manager)
    : Manager :=
  mkManager (map_id i (w_move nx ny) (fun w => w) (windows m)) (topZIndex m).

Definition updateWindowSize (i : string) (nw nh : Z) (m : Manager)
    : Manager :=
  mkManager (map_id i (w_resize nw nh) (fun w => w) (windows m))
    (topZIndex m).

(** The operations of [WindowManagerContextType]. *)
Inductive op :=
| OpOpen (d : WindowDesc)
| OpClose (i : string)
| OpMinimize (i : string)
| OpMaximize (i : string)
| OpRestore (i : string)
| OpFocus (i : string)
| OpMove (i : string) (nx ny : Z)
| OpResize (i : string) (nw nh : Z).

Definition step (m : Manager) (o : op) : Manager :=
  match o with
  | OpOpen d => openWindow d m
  | OpClose i => closeWindow i m
  | OpMinimize i => minimizeWindow i m
  | OpMaximize i => maximizeWindow i m
  | OpRestore i => restoreWindow i m
  | OpFocus i => focusWindow i m
  | OpMove i nx ny => updateWindowPosition i nx ny m
  | OpResize i nw nh => updateWindowSize i nw nh m
  end.

(** Operations applied in order, each to the state the previous one
    committed. *)
Definition run (os : list op) (m : Manager) : Manager := fold_left step os m.

Definition ids (m : Manager) : list string := map id (windows m).

Definition count_focused (ws : list WindowState) : nat :=
  length (filter isFocused ws).

(** The reachable-state invariant: unique ids, and every z-order value is
    at most the counter [topZIndex]. *)
Definition Inv (m : Manager) : Prop :=
  NoDup (ids m) /\ Forall (fun w => zIndex w <= topZIndex m) (windows m).

(** A minimized record is not focused. *)
Definition excl (ws : list WindowState) : Prop :=
  Forall (fun w => isMinimized w && isFocused w = false) ws.

(** The operations the taskbar and the desktop actually issue: [focus] only
    on a window that is not minimized (the taskbar sends [restore] for a
    minimized one), and [open] of a new id only with [isMinimized: false]. *)
Definition op_guard (m : Manager) (o : op) : bool :=
  match o with
  | OpFocus i =>
      forallb (fun w => negb (String.eqb (id w) i) || negb (isMinimized w))
        (windows m)
  | OpOpen d =>
      existsb (fun w => String.eqb (id w) (d_id d)) (windows m)
      || negb (d_isMinimized d)
  | _ => true
  end.

Fixpoint guarded (m : Manager) (os : list op) : bool :=
  match os with
  | [] => true
  | o :: os => op_guard m o && guarded (step m o) os
  end.

(** [v] agrees with [w] on every field except [isFocused] and [zIndex]. *)
Definition same_except_focus_z (w v : WindowState) : Prop :=
  id v = id w /\ title v = title w /\ icon v = icon w /\ x v = x w /\
  y v = y w /\ width v = width w /\ height v = height w /\
  minWidth v = minWidth w /\ minHeight v = minHeight w /\
  isMinimized v = isMinimized w /\ isMaximized v = isMaximized w /\
  content v = content w.

(** Reachable-state invariant on the z-order: unique ids, every z-order
    value at most the counter, z-order values pairwise distinct, and a
    focused record sits at the counter. *)
Definition InvZ (m : Manager) : Prop :=
  Inv m /\ NoDup (map zIndex (windows m)) /\
  Forall (fun w => isFocused w = true -> zIndex w = topZIndex m) (windows m).

End WM.

(* ------------------------------------------------------------------ *)
(** ** Chat relay endpoint [POST /api/chat] *)

Module Chat.
Local Open Scope string_scope.

Definition nl : string := String (ascii_of_nat 10) EmptyString.
Definition dq : string := String (ascii_of_nat 34) EmptyString.

(** [SYSTEM_PROMPT], line by line. *)
Definition SYSTEM_PROMPT : string :=
  String.concat nl [
    "You are a helpful personal assistant designed to help with general research, questions, and tasks.";
    "";
    "Your role is to:";
    "- Answer questions on any topic accurately and thoroughly";
    "- Help with research by searching the web for current information";
    "- Assist with writing, editing, and brainstorming";
    "- Provide explanations and summaries of complex topics";
    "- Help solve problems and think through decisions";
    "";
    "Guidelines:";
    "- Be friendly, clear, and conversational";
    "- Use web search when you need current information, facts you're unsure about, or real-time data";
    "- Keep responses concise but complete - expand when the topic warrants depth";
    "- Use markdown formatting when it helps readability (bullet points, code blocks, etc.)";
    "- Be honest when you don't know something and offer to search for answers"]%string.

(** [MessageInput]. *)
Record MessageInput := mkMsg { role : string; content : string }.

(** The [messages] value of the parsed body: an array of messages, or
    anything else (absent values are [None] in [Body]). *)
Inductive MessagesValue :=
| MArray (ms : list MessageInput)
| MNotArray.

(** The request body: a parsed JSON object with an optional [messages]
    field, or a body on which [await request.json()] or the
    destructuring throws (invalid JSON, [null]). *)
Inductive Body :=
| BodyObject (messages : option MessagesValue)
| BodyThrows.

(** The options object handed to [query]. *)
Record QueryCall := mkCall {
  prompt : string;
  maxTurns : Z;
  includePartialMessages : bool
}.

(** Messages yielded by the agent runtime, with the fields the loop reads. *)
Inductive Delta := TextDelta (text : string) | OtherDelta.
Inductive StreamEvent := ContentBlockDelta (delta : Delta) | OtherEvent.
Inductive Block := ToolUse (name : string) | OtherBlock.
Inductive SDKMessage :=
| MsgStreamEvent (ev : StreamEvent)
| MsgAssistant (content : option (list Block))  (* [None]: not an array *)
| MsgToolProgress (tool_name : string) (elapsed_time_seconds : Z)
| MsgResult (subtype : string)
| MsgOther.

(** The upstream sequence as consumed by [for await]: the messages it
    yields, then either normal completion or an exception. *)
Record Upstream := mkUpstream { events : list SDKMessage; throws : bool }.

(** The SSE frames enqueued on the controller, [data: <json>] each;
    [FSentinel] is the literal [data: [DONE]]. *)
Inductive Frame :=
| FTextDelta (text : string)
| FToolStart (tool : string)
| FToolProgress (tool : string) (elapsed : Z)
| FDone
| FError (message : string)
| FSentinel.

(** The body of the [for await] loop for one message. *)
Definition frames_of_message (msg : SDKMessage) : list Frame :=
  match msg with
  | MsgStreamEvent (ContentBlockDelta (TextDelta t)) => [FTextDelta t]
  | MsgStreamEvent _ => []
  | MsgAssistant (Some blocks) =>
      flat_map (fun b => match b with
                         | ToolUse n => [FToolStart n]
                         | OtherBlock => []
                         end) blocks
  | MsgAssistant None => []
  | MsgToolProgress n e => [FToolProgress n e]
  | MsgResult sub =>
      if String.eqb sub "success" then [FDone]
      else [FError "Query did not complete successfully"]
  | MsgOther => []
  end.

(** [start(controller)]: the [try] runs the loop then enqueues the
    sentinel; the [catch] enqueues an error frame; both close. *)
Definition stream_frames (up : Upstream) : list Frame :=
  let fs := flat_map frames_of_message (events up) in
  if throws up then app fs [FError "Stream error occurred"]
  else app fs [FSentinel].

Inductive Response :=
| RJson (status : Z) (body : string)
| RStream (call : QueryCall) (frames : Upstream -> list Frame).

(** [JSON.stringify({ error: msg })] for a message without characters
    that need escaping. *)
Definition json_error (msg : string) : string :=
  "{" ++ dq ++ "error" ++ dq ++ ":" ++ dq ++ msg ++ dq ++ "}".

(** [Array.prototype.pop] on a fresh array: its last element. *)
Fixpoint last_opt {A} (l : list A) : option A :=
  match l with
  | [] => None
  | [a] => Some a
  | _ :: l' => last_opt l'
  end.

(** [arr.slice(0, -1)]. *)
Definition slice_drop_last {A} (l : list A) : list A :=
  firstn (length l - 1) l.

Definition is_user (m : MessageInput) : bool := String.eqb (role m) "user".

(** [`${m.role === 'user' ? 'User' : 'Assistant'}: ${m.content}`] *)
Definition format_message (m : MessageInput) : string :=
  (if is_user m then "User" else "Assistant") ++ ": " ++ content m.

Definition POST (body : Body) : Response :=
  match body with
  | BodyThrows =>
      RJson 500 (json_error
        "Failed to process chat request. Check server logs for details.")
  | BodyObject None | BodyObject (Some MNotArray) =>
      RJson 400 (json_error "Messages array is required")
  | BodyObject (Some (MArray messages)) =>
      match last_opt (filter is_user messages) with
      | None => RJson 400 (json_error "No user message found")
      | Some lastUserMessage =>
          let conversationContext :=
            String.concat (nl ++ nl)
              (map format_message (slice_drop_last messages)) in
          let fullPrompt :=
            if String.eqb conversationContext ""
            then SYSTEM_PROMPT ++ nl ++ nl ++ "User: "
                   ++ content lastUserMessage
            else SYSTEM_PROMPT ++ nl ++ nl ++ "Previous conversation:" ++ nl
                   ++ conversationContext ++ nl ++ nl ++ "User: "
                   ++ content lastUserMessage in
          RStream (mkCall fullPrompt 10 true) stream_frames
      end
  end.

(** The prompt as the spec describes it: the fixed preamble, then the
    transcript of the earlier messages (when there are any), then the final
    user message. *)
Definition transcript (history : list MessageInput) : string :=
  String.concat (nl ++ nl) (map format_message history).

Definition spec_prompt (history : list MessageInput) (u : MessageInput)
    : string :=
  match history with
  | [] => SYSTEM_PROMPT ++ nl ++ nl ++ "User: " ++ content u
  | _ :: _ => SYSTEM_PROMPT ++ nl ++ nl ++ "Previous conversation:" ++ nl
              ++ transcript history ++ nl ++ nl ++ "User: " ++ content u
  end.

End Chat.

(* ------------------------------------------------------------------ *)
(** ** Folder view: double-click classification *)

Module FV.

(** [FolderItem]; [hasOnOpen] says whether the optional [onOpen] is set. *)
Record FolderItem := mkItem { fid : string; name : string; hasOnOpen : bool }.

(** Observable effects: the timer's single-click selection, and a call of
    the item's [onOpen]. *)
Inductive Action := SingleSelect (i : string) | OnOpen (i : string).

(** A pending [setTimeout]: its handle, due time and the item its closure
    captured. *)
Record Timer := mkTimer { handle : nat; due : Z; t_item : FolderItem }.

(** The view's refs and state, plus the pending timers and the effects
    observed so far. *)
Record FVState := mkFV {
  lastClickedId : option string;
  clickCount : Z;
  clickTimeout : option nat;
  timers : list Timer;
  nextHandle : nat;
  selectedId : option string;
  trace : list Action
}.

Definition set_count (c : Z) (s : FVState) : FVState :=
  mkFV (lastClickedId s) c (clickTimeout s) (timers s) (nextHandle s)
    (selectedId s) (trace s).

Definition set_timers (ts : list Timer) (s : FVState) : FVState :=
  mkFV (lastClickedId s) (clickCount s) (clickTimeout s) ts (nextHandle s)
    (selectedId s) (trace s).

Definition set_last (i : option string) (s : FVState) : FVState :=
  mkFV i (clickCount s) (clickTimeout s) (timers s) (nextHandle s)
    (selectedId s) (trace s).

Definition select (i : string) (acts : list Action) (s : FVState) : FVState :=
  mkFV (lastClickedId s) (clickCount s) (clickTimeout s) (timers s)
    (nextHandle s) (Some i) (trace s ++ acts).

(** [setTimeout(cb, 250)]: a new handle, stored in [clickTimeoutRef]. *)
Definition set_timeout (now : Z) (it : FolderItem) (s : FVState) : FVState :=
  mkFV (lastClickedId s) (clickCount s) (Some (nextHandle s))
    (timers s ++ [mkTimer (nextHandle s) (now + 250) it])
    (S (nextHandle s)) (selectedId s) (trace s).

(** [if (clickTimeoutRef.current) clearTimeout(clickTimeoutRef.current)];
    the ref itself is not reset. *)
Definition clear_timeout (s : FVState) : FVState :=
  match clickTimeout s with
  | Some h => set_timers (filter (fun t => negb (Nat.eqb (handle t) h))
                            (timers s)) s
  | None => s
  end.

Definition opt_string_eqb (a b : option string) : bool :=
  match a, b with
  | Some a, Some b => String.eqb a b
  | None, None => true
  | _, _ => false
  end.

(** The timer callback of [handleItemClick]. *)
Definition timer_callback (it : FolderItem) (s : FVState) : FVState :=
  let s := if Z.eqb (clickCount s) 1
           then select (fid it) [SingleSelect (fid it)] s else s in
  set_count 0 s.

(** [handleItemClick] at time [now]. *)
Definition handleItemClick (now : Z) (it : FolderItem) (s : FVState)
    : FVState :=
  let s :=
    if negb (opt_string_eqb (lastClickedId s) (Some (fid it)))
    then clear_timeout (set_count 0 s) else s in
  let s := set_last (Some (fid it)) s in
  let s := set_count (clickCount s + 1) s in
  if Z.eqb (clickCount s) 1 then set_timeout now it s
  else if Z.eqb (clickCount s) 2 then
    let s := set_count 0 (clear_timeout s) in
    select (fid it) (if hasOnOpen it then [OnOpen (fid it)] else []) s
  else s.

(** Run the callbacks of the given timers in order. *)
Definition fire (ts : list Timer) (s : FVState) : FVState :=
  fold_left (fun s t => timer_callback (t_item t) s) ts s.

(** Let time pass up to [now]: every timer due strictly before [now] fires,
    in the order it was set (a click at the instant a timer falls due is
    handled first). *)
Definition advance (now : Z) (s : FVState) : FVState :=
  let ready := filter (fun t => due t <? now) (timers s) in
  fire ready (set_timers (filter (fun t => negb (due t <? now)) (timers s)) s).

(** Let all pending timers fire. *)
Definition settle (s : FVState) : FVState :=
  fire (timers s) (set_timers [] s).

(** A sequence of clicks [(time, item)] in non-decreasing time, after which
    every pending timer fires. *)
Definition run_clicks (cs : list (Z * FolderItem)) (s : FVState) : FVState :=
  settle (fold_left (fun s '(now, it) => handleItemClick now it (advance now s))
            cs s).

(** No click is pending classification. *)
Definition idle (s : FVState) : Prop := clickCount s = 0 /\ timers s = [].

(** One click pending on [a]: counter at 1, its timer due at [t + 250]. *)
Definition pending (a : FolderItem) (t : Z) (h : nat) (sel : option string)
    (tr : list Action) : FVState :=
  mkFV (Some (fid a)) 1 (Some h) [mkTimer h (t + 250) a] (S h) sel tr.

End FV.

(* ------------------------------------------------------------------ *)
(** ** Taskbar and window gauges *)

Module Desk.
Import WM.

(** [Taskbar.handleWindowClick]. *)
Definition handleWindowClick (i : string) (isMin : bool) (m : Manager)
    : Manager :=
  if isMin then restoreWindow i m else focusWindow i m.

(** The [onClick] of the button rendered for [win]:
    [handleWindowClick(win.id, win.isMinimized)]. *)
Definition click_button (win : WindowState) (m : Manager) : Manager :=
  handleWindowClick (id win) (isMinimized win) m.

(** The highlighted button style: [win.isFocused && !win.isMinimized]. *)
Definition highlighted (win : WindowState) : bool :=
  isFocused win && negb (isMinimized win).

(** The three gauges of the provider's [useEffect]:
    [window.count.total], [window.count.open], [window.count.minimized]. *)
Definition window_gauges (ws : list WindowState) : Z * Z * Z :=
  (Z.of_nat (length ws),
   Z.of_nat (length (filter (fun w => negb (isMinimized w)) ws)),
   Z.of_nat (length (filter isMinimized ws))).

(** The operations that take [setTopZIndex(currentZ => currentZ + 1)]. *)
Definition bumps_counter (o : op) : bool :=
  match o with
  | OpOpen _ | OpRestore _ | OpFocus _ => true
  | _ => false
  end.

End Desk.

(* ------------------------------------------------------------------ *)
(** ** Metrics wrapper ([src/lib/metrics.ts]) *)

Module Metrics.
Local Open Scope string_scope.

(** The values the wrapper puts in a breadcrumb's [data]. Metric values
    are the integer counts, sizes and durations the callers pass. *)
Inductive JsVal := JStr (s : string) | JNum (z : Z) | JUndefined.

(** A plain object: its keys in insertion order. The engine enumerates
    integer-like keys first; only lookups by key are used here, which do
    not depend on that order. *)
Definition Obj := list (string * JsVal).

(** Property assignment: an existing key keeps its position. *)
Fixpoint obj_set (k : string) (v : JsVal) (o : Obj) : Obj :=
  match o with
  | [] => [(k, v)]
  | (k', v') :: o' =>
      if String.eqb k' k then (k, v) :: o' else (k', v') :: obj_set k v o'
  end.

Fixpoint obj_get (k : string) (o : Obj) : option JsVal :=
  match o with
  | [] => None
  | (k', v) :: o' => if String.eqb k' k then Some v else obj_get k o'
  end.

(** [Record<string, string>]. *)
Definition Tags := list (string * string).

(** [{ ...base, ...tags }]: the tags assigned in order after the fields. *)
Definition spread_tags (base : Obj) (tags : option Tags) : Obj :=
  match tags with
  | None => base
  | Some ts => fold_left (fun o '(k, v) => obj_set k (JStr v) o) ts base
  end.

Record Options := mkOptions { tags : option Tags; unit : option string }.

(** What the wrapper sees of [Sentry.metrics]: whether it exists and
    whether each method is a function. *)
Record SentryEnv := mkEnv {
  metrics_present : bool;
  increment_is_fn : bool;
  gauge_is_fn : bool;
  distribution_is_fn : bool
}.

Inductive Effect :=
| MetricCall (kind : string) (name : string) (value : Z) (opts : option Options)
| Breadcrumb (category : string) (message : string) (level : string)
    (data : Obj).

Definition fallback (name : string) (data : Obj) : Effect :=
  Breadcrumb "metric" ("Metric: " ++ name) "debug" data.

Definition opt_tags (o : option Options) : option Tags :=
  match o with Some o => tags o | None => None end.

Definition opt_unit (o : option Options) : JsVal :=
  match o with
  | Some {| unit := Some u |} => JStr u
  | _ => JUndefined
  end.

(** [metrics.increment]; [value] defaults to 1. *)
Definition increment (env : SentryEnv) (name : string) (value : option Z)
    (options : option Options) : list Effect :=
  let value := match value with Some v => v | None => 1 end in
  if metrics_present env && increment_is_fn env
  then [MetricCall "increment" name value options]
  else [fallback name (spread_tags [("metric", JStr name); ("value", JNum value);
                                    ("type", JStr "increment")]
                         (opt_tags options))].

Definition gauge (env : SentryEnv) (name : string) (value : Z)
    (options : option Options) : list Effect :=
  if metrics_present env && gauge_is_fn env
  then [MetricCall "gauge" name value options]
  else [fallback name (spread_tags [("metric", JStr name); ("value", JNum value);
                                    ("type", JStr "gauge")]
                         (opt_tags options))].

Definition distribution (env : SentryEnv) (name : string) (value : Z)
    (options : option Options) : list Effect :=
  if metrics_present env && distribution_is_fn env
  then [MetricCall "distribution" name value options]
  else [fallback name (spread_tags [("metric", JStr name); ("value", JNum value);
                                    ("type", JStr "distribution");
                                    ("unit", opt_unit options)]
                         (opt_tags options))].

(** The value a tags object holds for [k]: the last assignment wins. *)
Definition tag_value (k : string) (ts : option Tags) : option string :=
  match ts with
  | None => None
  | Some ts => fold_left (fun acc '(k', v) =>
                 if String.eqb k' k then Some v else acc) ts None
  end.

(** What the breadcrumb's [data] shows at key [k]: the tag's value when the
    tags hold [k], the built-in field otherwise. *)
Definition tags_over (ts : option Tags) (base : Obj) (k : string) : option JsVal :=
  match tag_value k ts with
  | Some t => Some (JStr t)
  | None => obj_get k base
  end.

End Metrics.

(* ------------------------------------------------------------------ *)
(** ** Chat stream: what reaches the browser *)

Module ChatObs.
Import Chat.

(** The texts of the [text_delta] frames, in order. *)
Definition frame_texts (fs : list Frame) : list string :=
  flat_map (fun f => match f with FTextDelta t => [t] | _ => [] end) fs.

(** The tools of the [tool_start] frames, in order. *)
Definition frame_tools (fs : list Frame) : list string :=
  flat_map (fun f => match f with FToolStart n => [n] | _ => [] end) fs.

Definition count_frames (p : Frame -> bool) (fs : list Frame) : nat :=
  length (filter p fs).

Definition is_done (f : Frame) : bool :=
  match f with FDone => true | _ => false end.

Definition is_query_error (f : Frame) : bool :=
  match f with
  | FError msg => String.eqb msg "Query did not complete successfully"
  | _ => false
  end.

(** The upstream side: text deltas of the stream events, tool-use blocks of
    assistant messages with array content, and result subtypes. *)
Definition upstream_texts (evs : list SDKMessage) : list string :=
  flat_map (fun e => match e with
                     | MsgStreamEvent (ContentBlockDelta (TextDelta t)) => [t]
                     | _ => []
                     end) evs.

Definition upstream_tools (evs : list SDKMessage) : list string :=
  flat_map (fun e => match e with
                     | MsgAssistant (Some bs) =>
                         flat_map (fun b => match b with
                                            | ToolUse n => [n]
                                            | OtherBlock => []
                                            end) bs
                     | _ => []
                     end) evs.

Definition count_results (p : string -> bool) (evs : list SDKMessage) : nat :=
  length (filter (fun e => match e with MsgResult s => p s | _ => false end) evs).

(** The frames of the tool-use blocks of one assistant message. *)
Definition block_frames (bs : list Block) : list Frame :=
  flat_map (fun b => match b with ToolUse n => [FToolStart n] | OtherBlock => [] end) bs.

Definition result_is (p : string -> bool) (e : SDKMessage) : bool :=
  match e with MsgResult s => p s | _ => false end.

End ChatObs.

(* ------------------------------------------------------------------ *)
(** ** Folder view: click runs *)

Module FVRuns.
Import FV.

(** One click on [b] awaiting classification, its timer due at [d]. *)
Definition waiting (b : FolderItem) (d : Z) (h nh : nat) (sel : option string)
    (tr : list Action) : FVState :=
  mkFV (Some (fid b)) 1 (Some h) [mkTimer h d b] nh sel tr.

(** The refs between events: either nothing is pending, or exactly one
    timer is pending, for the last clicked item, with the counter at 1. *)
Definition fv_ok (s : FVState) : Prop :=
  idle s \/ exists b d h nh sel tr, s = waiting b d h nh sel tr.

(** The clicks of [run_clicks] without the final settling. *)
Definition clicks_only (cs : list (Z * FolderItem)) (s : FVState) : FVState :=
  fold_left (fun s '(now, it) => handleItemClick now it (advance now s)) cs s.

(** [n] clicks on [a], [g] time-units apart, from time [t], numbered from [k]. *)
Definition rapid (a : FolderItem) (t g : Z) (k n : nat) : list (Z * FolderItem) :=
  map (fun j => (t + Z.of_nat j * g, a)) (seq k n).

End FVRuns.

(* ------------------------------------------------------------------ *)
(** ** Sample desktop sessions *)

Module WMExamples.
Import WM.
Local Open Scope string_scope.

Definition ex_desc (i : string) : WindowDesc :=
  mkDesc i i "" 100 80 500 400 300 200 false false "".

(** Open two apps, then minimize the first. *)
Definition ex_ops : list op :=
  [OpOpen (ex_desc "notepad"); OpOpen (ex_desc "folder"); OpMinimize "notepad"].

Definition ex_nth (k : nat) : WindowState :=
  nth k (windows (run ex_ops initial)) (of_desc 0 (ex_desc "")).

End WMExamples.

(* ------------------------------------------------------------------ *)
(** ** Window manager: lemmas *)

Module WMFacts.
Import WM.

(** Every spread used by the operations keeps the window id. *)
Lemma map_id_ids (i : string) (f g : WindowState -> WindowState) ws :
  (forall w, id (f w) = id w) -> (forall w, id (g w) = id w) ->
  map id (map_id i f g ws) = map id ws.
Proof.
  intros Hf Hg. induction ws as [|w ws IH]; simpl; [reflexivity|].
  rewrite IH. destruct (String.eqb (id w) i); rewrite ?Hf, ?Hg; reflexivity.
Qed.

Lemma map_id_length i f g ws : length (map_id i f g ws) = length ws.
Proof. apply length_map. Qed.

Lemma map_id_Forall (P : WindowState -> Prop) i f g ws :
  (forall w, P (f w)) -> (forall w, P (g w)) -> Forall P (map_id i f g ws).
Proof.
  intros Hf Hg. apply Forall_forall. intros v Hv.
  apply in_map_iff in Hv as [w [<- _]].
  destruct (String.eqb (id w) i); auto.
Qed.

Lemma In_map_id i f g ws v :
  In v (map_id i f g ws) ->
  exists w, In w ws /\
    ((id w = i /\ v = f w) \/ (id w <> i /\ v = g w)).
Proof.
  intros Hv. apply in_map_iff in Hv as [w [<- Hw]]. exists w. split; [exact Hw|].
  destruct (String.eqb (id w) i) eqn:E.
  - left. apply String.eqb_eq in E. auto.
  - right. apply String.eqb_neq in E. auto.
Qed.

Lemma nth_error_map_id i f g ws k :
  nth_error (map_id i f g ws) k =
  option_map (fun w => if String.eqb (id w) i then f w else g w)
    (nth_error ws k).
Proof. apply nth_error_map. Qed.

Lemma find_id_none i ws :
  ~ In i (map id ws) -> find (fun w => String.eqb (id w) i) ws = None.
Proof.
  induction ws as [|w ws IH]; simpl; intros Hn; [reflexivity|].
  destruct (String.eqb (id w) i) eqn:E.
  - apply String.eqb_eq in E. exfalso. apply Hn. left. exact E.
  - apply IH. intros H. apply Hn. right. exact H.
Qed.

(** With unique ids, a record is determined by its id. *)
Lemma NoDup_id_unique ws w w' :
  NoDup (map id ws) -> In w ws -> In w' ws -> id w = id w' -> w = w'.
Proof.
  induction ws as [|v ws IH]; simpl; [tauto|].
  intros Hnd Hw Hw' Heq. inversion Hnd as [|? ? Hni Hnd']; subst.
  destruct Hw as [<-|Hw]; destruct Hw' as [<-|Hw']; auto.
  - exfalso. apply Hni. rewrite Heq. apply in_map. exact Hw'.
  - exfalso. apply Hni. rewrite <- Heq. apply in_map. exact Hw.
Qed.

Lemma find_id_unique i ws w :
  NoDup (map id ws) -> In w ws -> id w = i ->
  find (fun v => String.eqb (id v) i) ws = Some w.
Proof.
  intros Hnd Hw Hi.
  destruct (find (fun v => String.eqb (id v) i) ws) as [v|] eqn:E.
  - apply find_some in E as [Hv Hvi]. apply String.eqb_eq in Hvi.
    f_equal. apply (NoDup_id_unique ws); auto. congruence.
  - exfalso. pose proof (find_none _ _ E w Hw) as H. simpl in H.
    rewrite Hi, String.eqb_refl in H. discriminate.
Qed.

Lemma NoDup_map_filter (p : WindowState -> bool) ws :
  NoDup (map id ws) -> NoDup (map id (filter p ws)).
Proof.
  induction ws as [|w ws IH]; simpl; intros Hnd; [constructor|].
  inversion Hnd as [|? ? Hni Hnd']; subst.
  destruct (p w); simpl; auto.
  constructor; auto. intros Hin. apply Hni.
  apply in_map_iff in Hin as [v [Hv Hin]]. apply filter_In in Hin as [Hin _].
  rewrite <- Hv. apply in_map. exact Hin.
Qed.

Lemma count_focused_app ws1 ws2 :
  count_focused (ws1 ++ ws2) = (count_focused ws1 + count_focused ws2)%nat.
Proof. unfold count_focused. rewrite filter_app, length_app. reflexivity. Qed.

Lemma count_focused_unfocus ws : count_focused (map w_unfocus ws) = 0%nat.
Proof. induction ws as [|w ws IH]; simpl; auto. Qed.

(** Opening a descriptor whose id is not present appends one record. *)
Lemma openWindow_fresh d m :
  ~ In (d_id d) (ids m) ->
  windows (openWindow d m) =
    map w_unfocus (windows m) ++ [of_desc (topZIndex m + 1) d].
Proof.
  intros Hn. unfold openWindow. simpl. rewrite find_id_none by exact Hn.
  reflexivity.
Qed.

Lemma ids_openWindow_fresh d m :
  ~ In (d_id d) (ids m) -> ids (openWindow d m) = ids m ++ [d_id d].
Proof.
  intros Hn. unfold ids. rewrite openWindow_fresh by exact Hn.
  rewrite map_app, map_map. reflexivity.
Qed.

Lemma Inv_initial : Inv initial.
Proof. split; constructor. Qed.

Lemma Forall_z_mono ws t t' :
  t <= t' -> Forall (fun w => zIndex w <= t) ws ->
  Forall (fun w => zIndex w <= t') ws.
Proof. intros Ht H. eapply Forall_impl; [|exact H]. intros w Hw. simpl in Hw. lia. Qed.

Lemma Inv_map_id m i f g t' :
  Inv m -> topZIndex m <= t' ->
  (forall w, id (f w) = id w) -> (forall w, id (g w) = id w) ->
  (forall w, zIndex w <= topZIndex m -> zIndex (f w) <= t') ->
  (forall w, zIndex w <= topZIndex m -> zIndex (g w) <= t') ->
  Inv (mkManager (map_id i f g (windows m)) t').
Proof.
  intros [Hnd Hz] Ht Hf Hg Hzf Hzg. split.
  - unfold ids; simpl. rewrite map_id_ids by assumption. exact Hnd.
  - simpl. apply Forall_forall. intros v Hv.
    apply In_map_id in Hv as [w [Hw [[_ ->]|[_ ->]]]];
      rewrite Forall_forall in Hz; auto.
Qed.

Ltac inv_map_id := eapply Inv_map_id; eauto; simpl; intros; lia.

Lemma Inv_step m o : Inv m -> Inv (step m o).
Proof.
  intros HI. destruct o as [d|i|i|i|i|i|i nx ny|i nw nh]; simpl.
  - unfold openWindow.
    destruct (find (fun w => String.eqb (id w) (d_id d)) (windows m))
      as [e|] eqn:E; [destruct (isMinimized e)|].
    + inv_map_id.
    + inv_map_id.
    + destruct HI as [Hnd Hz]. split.
      * unfold ids; simpl. rewrite map_app, map_map. simpl.
        apply NoDup_app; [exact Hnd|constructor; [intros []|constructor]|].
        intros s Hs [<-|[]].
        exfalso. apply in_map_iff in Hs as [w [Hw Hin]].
        apply (find_none _ _ E) in Hin. simpl in Hin.
        rewrite Hw, String.eqb_refl in Hin. discriminate.
      * simpl. apply Forall_app. split.
        -- apply Forall_map. eapply Forall_impl; [|exact Hz].
           intros w Hw. cbn. cbn in Hw. lia.
        -- constructor; [simpl; lia|constructor].
  - destruct HI as [Hnd Hz]. split.
    + apply NoDup_map_filter. exact Hnd.
    + simpl. apply Forall_forall. intros w Hw.
      apply filter_In in Hw as [Hw _]. rewrite Forall_forall in Hz. auto.
  - inv_map_id.
  - inv_map_id.
  - inv_map_id.
  - inv_map_id.
  - inv_map_id.
  - inv_map_id.
Qed.

Lemma Inv_run os m : Inv m -> Inv (run os m).
Proof.
  revert m. induction os as [|o os IH]; simpl; intros m HI; [exact HI|].
  apply IH. apply Inv_step. exact HI.
Qed.

Lemma Inv_reachable os : Inv (run os initial).
Proof. apply Inv_run, Inv_initial. Qed.

Lemma map_id_absent i f g ws :
  ~ In i (map id ws) -> map_id i f g ws = map g ws.
Proof.
  induction ws as [|w ws IH]; simpl; intros Hn; [reflexivity|].
  destruct (String.eqb (id w) i) eqn:E.
  - apply String.eqb_eq in E. exfalso. apply Hn. left. exact E.
  - f_equal. apply IH. intros H. apply Hn. right. exact H.
Qed.

Lemma filter_absent i ws :
  ~ In i (map id ws) -> filter (fun w => negb (String.eqb (id w) i)) ws = ws.
Proof.
  induction ws as [|w ws IH]; simpl; intros Hn; [reflexivity|].
  destruct (String.eqb (id w) i) eqn:E; simpl.
  - apply String.eqb_eq in E. exfalso. apply Hn. left. exact E.
  - f_equal. apply IH. intros H. apply Hn. right. exact H.
Qed.

Lemma excl_map_id i f g ws :
  (forall w, In w ws -> id w = i -> isMinimized (f w) && isFocused (f w) = false) ->
  (forall w, In w ws -> id w <> i -> isMinimized (g w) && isFocused (g w) = false) ->
  excl (map_id i f g ws).
Proof.
  intros Hf Hg. apply Forall_forall. intros v Hv.
  apply In_map_id in Hv as [w [Hw [[Hi ->]|[Hi ->]]]]; auto.
Qed.

Lemma excl_In ws w : excl ws -> In w ws -> isMinimized w && isFocused w = false.
Proof. intros H Hw. unfold excl in H. rewrite Forall_forall in H. auto. Qed.

Ltac excl_case :=
  intros ? ? ?; simpl;
  first [ reflexivity | apply andb_false_r | eapply excl_In; eassumption ].

Lemma excl_step m o :
  Inv m -> excl (windows m) -> op_guard m o = true -> excl (windows (step m o)).
Proof.
  intros [Hnd _] Hex Hg. destruct o as [d|i|i|i|i|i|i nx ny|i nw nh]; simpl in *.
  - unfold openWindow; simpl.
    destruct (find (fun w => String.eqb (id w) (d_id d)) (windows m))
      as [e|] eqn:E.
    + apply find_some in E as [He Hei]. apply String.eqb_eq in Hei.
      destruct (isMinimized e) eqn:Hm; apply excl_map_id; intros w Hw Hi;
        simpl; auto using andb_false_r.
      * assert (w = e) as -> by (apply (NoDup_id_unique (windows m)); auto; congruence).
        rewrite Hm. reflexivity.
    + apply Forall_app. split.
      * apply Forall_map. apply Forall_forall. intros w _. simpl.
        apply andb_false_r.
      * constructor; [|constructor]. simpl.
        destruct (existsb (fun w => String.eqb (id w) (d_id d)) (windows m)) eqn:Ex.
        -- apply existsb_exists in Ex as [w [Hw Hwi]].
           pose proof (find_none _ _ E w Hw) as H. simpl in H. congruence.
        -- simpl in Hg. apply negb_true_iff in Hg. rewrite Hg. reflexivity.
  - apply Forall_forall. intros w Hw. apply filter_In in Hw as [Hw _].
    apply (excl_In _ _ Hex Hw).
  - apply excl_map_id; excl_case.
  - apply excl_map_id; excl_case.
  - apply excl_map_id; excl_case.
  - apply excl_map_id; [|excl_case]. intros w Hw Hi. simpl.
    rewrite forallb_forall in Hg. specialize (Hg w Hw). simpl in Hg.
    rewrite Hi, String.eqb_refl in Hg. simpl in Hg.
    apply negb_true_iff in Hg. rewrite Hg. reflexivity.
  - apply excl_map_id; excl_case.
  - apply excl_map_id; excl_case.
Qed.

Lemma excl_guarded os m :
  Inv m -> excl (windows m) -> guarded m os = true -> excl (windows (run os m)).
Proof.
  revert m. induction os as [|o os IH]; simpl; intros m HI Hex Hg; [exact Hex|].
  apply andb_true_iff in Hg as [Ho Hg].
  apply IH; auto using Inv_step, excl_step.
Qed.

(** Opening [k >= 1] descriptors with ids fresh for the state leaves exactly
    one focused record. *)
Lemma opens_one_focused ds m :
  NoDup (ids m ++ map d_id ds) ->
  forall k, (1 <= k <= length ds)%nat ->
  count_focused (windows (run (map OpOpen (firstn k ds)) m)) = 1%nat.
Proof.
  revert m. induction ds as [|d ds IH]; simpl; intros m Hnd k Hk; [lia|].
  destruct k as [|k]; [lia|]. cbn [firstn map run fold_left step].
  assert (Hfresh : ~ In (d_id d) (ids m)).
  { intros H. apply (NoDup_remove_2 _ _ _ Hnd). apply in_or_app. left. exact H. }
  destruct k as [|k].
  - cbn [firstn map fold_left]. rewrite openWindow_fresh by exact Hfresh.
    rewrite count_focused_app, count_focused_unfocus. reflexivity.
  - apply IH; [|simpl in Hk; lia].
    rewrite ids_openWindow_fresh by exact Hfresh.
    rewrite <- app_assoc. exact Hnd.
Qed.

End WMFacts.

(* ------------------------------------------------------------------ *)
(** ** Window manager: the z-order invariant *)

Module WMExtra.
Import WM WMFacts.

Lemma NoDup_map_inj {A} (f : WindowState -> A) ws v w :
  NoDup (map f ws) -> In v ws -> In w ws -> f v = f w -> v = w.
Proof.
  induction ws as [|u ws IH]; simpl; [tauto|].
  intros Hnd Hv Hw Heq. inversion Hnd as [|? ? Hni Hnd']; subst.
  destruct Hv as [<-|Hv]; destruct Hw as [<-|Hw]; auto.
  - exfalso. apply Hni. rewrite Heq. apply in_map. exact Hw.
  - exfalso. apply Hni. rewrite <- Heq. apply in_map. exact Hv.
Qed.

Lemma NoDup_map_filter_gen {A} (f : WindowState -> A) (p : WindowState -> bool) ws :
  NoDup (map f ws) -> NoDup (map f (filter p ws)).
Proof.
  induction ws as [|w ws IH]; simpl; intros Hnd; [constructor|].
  inversion Hnd as [|? ? Hni Hnd']; subst.
  destruct (p w); simpl; auto.
  constructor; auto. intros Hin. apply Hni.
  apply in_map_iff in Hin as [v [Hv Hin]]. apply filter_In in Hin as [Hin _].
  rewrite <- Hv. apply in_map. exact Hin.
Qed.

Lemma map_z_map_id i f g ws :
  (forall w, zIndex (f w) = zIndex w) -> (forall w, zIndex (g w) = zIndex w) ->
  map zIndex (map_id i f g ws) = map zIndex ws.
Proof.
  intros Hf Hg. unfold map_id. rewrite map_map. apply map_ext.
  intros w. destruct (String.eqb (id w) i); auto.
Qed.

(** Giving the records with id [i] the z-order value [t + 1] keeps the
    values distinct when all are at most [t] and ids are unique. *)
Lemma NoDup_z_map_id i f g ws t :
  NoDup (map id ws) -> NoDup (map zIndex ws) ->
  Forall (fun w => zIndex w <= t) ws ->
  (forall w, zIndex (f w) = t + 1) -> (forall w, zIndex (g w) = zIndex w) ->
  NoDup (map zIndex (map_id i f g ws)).
Proof.
  intros Hid Hz Ht Hf Hg. induction ws as [|w ws IH]; simpl; [constructor|].
  inversion Hid as [|? ? Hni Hid']; subst.
  inversion Hz as [|? ? Hnz Hz']; subst.
  inversion Ht as [|? ? Htw Ht']; subst.
  destruct (String.eqb (id w) i) eqn:E.
  - apply String.eqb_eq in E. subst i.
    rewrite map_id_absent by exact Hni.
    assert (Hm : map zIndex (map g ws) = map zIndex ws).
    { rewrite map_map. apply map_ext. exact Hg. }
    rewrite Hm, Hf. constructor; [|exact Hz'].
    intros Hin. apply in_map_iff in Hin as [v [Hv Hin]].
    rewrite Forall_forall in Ht'. specialize (Ht' v Hin). simpl in Ht'. lia.
  - rewrite Hg. constructor; [|apply IH; assumption].
    intros Hin. apply in_map_iff in Hin as [v [Hv Hin]].
    apply In_map_id in Hin as [u [Hu [[_ ->]|[_ ->]]]].
    + rewrite Hf in Hv. lia.
    + rewrite Hg in Hv. apply Hnz. rewrite <- Hv. apply in_map. exact Hu.
Qed.

(** The operations that bring a record to the front:
    [open] of a present id, [restore] and [focus]. *)
Lemma InvZ_front m i f g :
  InvZ m ->
  (forall w, id (f w) = id w) -> (forall w, id (g w) = id w) ->
  (forall w, zIndex (f w) = topZIndex m + 1) ->
  (forall w, zIndex (g w) = zIndex w) -> (forall w, isFocused (g w) = false) ->
  InvZ (mkManager (map_id i f g (windows m)) (topZIndex m + 1)).
Proof.
  intros [HI [Hz Hfz]] Hif Hig Hzf Hzg Hfg. pose proof HI as [Hid Ht].
  split; [|split].
  - eapply Inv_map_id; eauto; [lia| |]; intros w Hw; rewrite ?Hzf, ?Hzg; lia.
  - simpl. apply NoDup_z_map_id with (t := topZIndex m); auto.
  - simpl. apply map_id_Forall; intros w Hw.
    + apply Hzf.
    + rewrite Hfg in Hw. discriminate.
Qed.

(** The operations that leave the z-order and the counter alone and never
    set [isFocused]: [minimize], [maximize], [move], [resize]. *)
Lemma InvZ_keep m i f g :
  InvZ m ->
  (forall w, id (f w) = id w) -> (forall w, id (g w) = id w) ->
  (forall w, zIndex (f w) = zIndex w) -> (forall w, zIndex (g w) = zIndex w) ->
  (forall w, isFocused (f w) = true -> isFocused w = true) ->
  (forall w, isFocused (g w) = true -> isFocused w = true) ->
  InvZ (mkManager (map_id i f g (windows m)) (topZIndex m)).
Proof.
  intros [HI [Hz Hfz]] Hif Hig Hzf Hzg Hff Hfg. split; [|split].
  - eapply Inv_map_id; eauto; [lia| |]; intros w Hw; rewrite ?Hzf, ?Hzg; lia.
  - simpl. rewrite map_z_map_id by assumption. exact Hz.
  - simpl. apply Forall_forall. intros v Hv Hfv.
    rewrite Forall_forall in Hfz.
    apply In_map_id in Hv as [w [Hw [[_ ->]|[_ ->]]]].
    + rewrite Hzf. apply Hfz; auto.
    + rewrite Hzg. apply Hfz; auto.
Qed.

Ltac front := eapply InvZ_front; eauto; reflexivity.
Ltac keep := eapply InvZ_keep; eauto; simpl; first [reflexivity | discriminate | auto].

Lemma InvZ_step m o : InvZ m -> InvZ (step m o).
Proof.
  intros HZ. destruct o as [d|i|i|i|i|i|i nx ny|i nw nh]; simpl.
  - unfold openWindow.
    destruct (find (fun w => String.eqb (id w) (d_id d)) (windows m))
      as [e|] eqn:E; [destruct (isMinimized e); front|].
    destruct HZ as [HI [Hz Hfz]].
    assert (HI' : Inv (step m (OpOpen d))) by (apply Inv_step; exact HI).
    simpl in HI'. unfold openWindow in HI'. rewrite E in HI'.
    split; [exact HI'|split].
    + simpl. rewrite map_app, map_map. simpl.
      apply NoDup_app; [exact Hz|constructor; [intros []|constructor]|].
      intros s Hs [<-|[]]. apply in_map_iff in Hs as [w [Hw Hin]].
      destruct HI as [_ Ht]. rewrite Forall_forall in Ht.
      specialize (Ht w Hin). simpl in Hw. lia.
    + simpl. apply Forall_app. split.
      * apply Forall_map. apply Forall_forall. intros w _. discriminate.
      * constructor; [reflexivity|constructor].
  - destruct HZ as [HI [Hz Hfz]]. split; [|split].
    + apply (Inv_step m (OpClose i)). exact HI.
    + simpl. apply NoDup_map_filter_gen. exact Hz.
    + simpl. apply Forall_forall. intros w Hw.
      apply filter_In in Hw as [Hw _]. rewrite Forall_forall in Hfz. auto.
  - keep.
  - keep.
  - front.
  - front.
  - keep.
  - keep.
Qed.

Lemma InvZ_reachable os : InvZ (run os initial).
Proof.
  assert (H0 : InvZ initial) by (split; [apply Inv_initial|split; constructor]).
  unfold run. revert H0. generalize initial.
  induction os as [|o os IH]; simpl; intros m H; [exact H|].
  apply IH. apply InvZ_step. exact H.
Qed.

Lemma count_focused_le1 ws t :
  NoDup (map zIndex ws) ->
  Forall (fun w => isFocused w = true -> zIndex w = t) ws ->
  (count_focused ws <= 1)%nat.
Proof.
  unfold count_focused. induction ws as [|w ws IH]; simpl; intros Hz Hf; [lia|].
  inversion Hz as [|? ? Hnz Hz']; subst. inversion Hf as [|? ? Hfw Hf']; subst.
  destruct (isFocused w) eqn:F; [|apply IH; assumption].
  destruct (filter isFocused ws) as [|u us] eqn:Ef; simpl; [lia|].
  exfalso. assert (Hu : In u (filter isFocused ws)) by (rewrite Ef; left; reflexivity).
  apply filter_In in Hu as [Hu Fu]. rewrite Forall_forall in Hf'.
  apply Hnz. rewrite (Hfw eq_refl), <- (Hf' u Hu Fu). apply in_map. exact Hu.
Qed.

End WMExtra.

(* ------------------------------------------------------------------ *)
(** ** Window manager: claims *)

Module WMClaims.
Import WM WMFacts WMExtra.

(** A descriptor as the desktop passes it ([isMinimized: false]). *)
Definition desc (i : string) : WindowDesc :=
  mkDesc i i "" 100 80 500 400 300 200 false false "".

(** C1: opening descriptors with pairwise distinct ids, one after the
    other, starting from the empty window set, leaves exactly one record
    with [isFocused = true] after each call (and none before the first);
    and in every state reachable from the empty set by any sequence of
    operations (open, close, minimize, maximize, restore, focus, move,
    resize) at most one record has [isFocused = true]. *)
Theorem open_distinct_single_focus :
  (forall ds : list WindowDesc, NoDup (map d_id ds) ->
     forall k, (k <= length ds)%nat ->
     count_focused (windows (run (map OpOpen (firstn k ds)) initial)) =
       (if Nat.eqb k 0 then 0 else 1)%nat) /\
  (forall os : list op, (count_focused (windows (run os initial)) <= 1)%nat).
Proof.
  split.
  - intros ds Hnd k Hk. destruct (Nat.eqb k 0) eqn:E.
    + apply Nat.eqb_eq in E. subst k. reflexivity.
    + apply Nat.eqb_neq in E. apply opens_one_focused; [exact Hnd|lia].
  - intros os. destruct (InvZ_reachable os) as [_ [Hz Hf]].
    eapply count_focused_le1; eauto.
Qed.

Lemma open_distinct_single_focus_witness :
  NoDup (map d_id [desc "chat"; desc "notes"; desc "agents"]) /\
  count_focused (windows (run (map OpOpen
    (firstn 2 [desc "chat"; desc "notes"; desc "agents"])) initial)) = 1%nat /\
  (count_focused (windows (run [OpOpen (desc "chat"); OpOpen (desc "notes");
     OpMinimize "notes"; OpFocus "notes"; OpRestore "chat"; OpClose "chat"]
     initial)) <= 1)%nat.
Proof.
  assert (H : NoDup (map d_id [desc "chat"; desc "notes"; desc "agents"])).
  { simpl. repeat constructor; simpl; intuition discriminate. }
  split; [exact H|split].
  - apply (proj1 open_distinct_single_focus _ H 2%nat). simpl. lia.
  - apply (proj2 open_distinct_single_focus).
Defined.

(** C3 (as stated, refuted): focusing an id that is not present changes the
    window set: the focused record loses its focus. *)
Lemma absent_id_noop_counterexample :
  let m := openWindow (desc "chat") initial in
  ~ In "notes"%string (ids m) /\ windows (focusWindow "notes" m) <> windows m.
Proof.
  simpl. split.
  - intros [H|[]]. discriminate.
  - intros H. injection H. discriminate.
Qed.

(** C3 (amended): with an id that is not present, [close], [minimize],
    [maximize], [move] and [resize] leave the window set identical; [focus]
    and [restore] keep its length, order and every field of every record
    except [isFocused], which they set to [false] on every record; they
    also advance the z-order counter [topZIndex] by one. *)
Theorem absent_id_effects (m : Manager) (i : string) :
  ~ In i (ids m) ->
  windows (closeWindow i m) = windows m /\
  windows (minimizeWindow i m) = windows m /\
  windows (maximizeWindow i m) = windows m /\
  (forall nx ny, windows (updateWindowPosition i nx ny m) = windows m) /\
  (forall nw nh, windows (updateWindowSize i nw nh m) = windows m) /\
  windows (focusWindow i m) = map w_unfocus (windows m) /\
  windows (restoreWindow i m) = map w_unfocus (windows m) /\
  topZIndex (focusWindow i m) = topZIndex m + 1 /\
  topZIndex (restoreWindow i m) = topZIndex m + 1.
Proof.
  intros Hn. unfold ids in Hn.
  unfold closeWindow, minimizeWindow, maximizeWindow, updateWindowPosition,
    updateWindowSize, focusWindow, restoreWindow; simpl.
  rewrite filter_absent by exact Hn.
  repeat split; intros; try reflexivity; rewrite map_id_absent by exact Hn;
    rewrite ?List.map_id; reflexivity.
Qed.

Lemma absent_id_effects_witness :
  let m := openWindow (desc "chat") initial in
  ~ In "notes"%string (ids m) /\
  windows (focusWindow "notes" m) = map w_unfocus (windows m) /\
  topZIndex (focusWindow "notes" m) = topZIndex m + 1.
Proof.
  simpl.
  assert (H : ~ In "notes"%string (ids (openWindow (desc "chat") initial))).
  { simpl. intros [H|[]]. discriminate. }
  destruct (absent_id_effects (openWindow (desc "chat") initial) "notes" H)
    as [_ [_ [_ [_ [_ [Hf [_ [Ht _]]]]]]]].
  split; [exact H|split; [exact Hf|exact Ht]].
Defined.

(** C4 (as stated, refuted): [focus] leaves [isMinimized] alone, so
    focusing a minimized window yields a record that is both minimized and
    focused. *)
Lemma minimized_focused_counterexample :
  exists w, In w (windows (run [OpOpen (desc "chat"); OpMinimize "chat";
                                OpFocus "chat"] initial)) /\
            isMinimized w = true /\ isFocused w = true.
Proof.
  eexists. split; [simpl; left; reflexivity|]. split; reflexivity.
Qed.

(** C4 (amended): a record read right after [minimize(id)] is not focused;
    [focus] never changes [isMinimized]; so [focus] on a minimized window
    yields a record that is both minimized and focused. The taskbar sends
    [restore] for a minimized window (and [focus] otherwise), and in every
    reachable state a taskbar click leaves no record both minimized and
    focused. Every state reached by operations in which [focus] targets no
    minimized window and [open] of a new id carries [isMinimized: false]
    has no record that is both minimized and focused. *)
Theorem minimized_focused_exclusive :
  (forall m i w, In w (windows (minimizeWindow i m)) -> id w = i ->
     isFocused w = false) /\
  (forall m i, map isMinimized (windows (focusWindow i m)) =
               map isMinimized (windows m)) /\
  (forall m w, In w (windows m) -> isMinimized w = true ->
     exists v, In v (windows (focusWindow (id w) m)) /\ id v = id w /\
       isMinimized v = true /\ isFocused v = true) /\
  (forall m w, Desk.click_button w m =
     if isMinimized w then restoreWindow (id w) m else focusWindow (id w) m) /\
  (forall os w, In w (windows (run os initial)) ->
     excl (windows (Desk.click_button w (run os initial)))) /\
  (forall os, guarded initial os = true ->
     excl (windows (run os initial))).
Proof.
  split; [|split; [|split; [|split; [|split]]]].
  - intros m i w Hw Hi. apply In_map_id in Hw as [v [_ [[_ ->]|[Hv ->]]]].
    + reflexivity.
    + simpl in Hi. contradiction.
  - intros m i. simpl. unfold map_id. rewrite map_map.
    apply map_ext. intros w. destruct (String.eqb (id w) i); reflexivity.
  - intros m w Hw Hm. exists (w_focus (topZIndex m + 1) w).
    split; [|repeat split; simpl; auto].
    simpl. unfold map_id. apply in_map_iff. exists w.
    rewrite String.eqb_refl. split; [reflexivity|exact Hw].
  - intros m w. reflexivity.
  - intros os w Hw. destruct (Inv_reachable os) as [Hnd _].
    unfold Desk.click_button, Desk.handleWindowClick.
    destruct (isMinimized w) eqn:Hm; apply excl_map_id; intros u Hu Hi; simpl;
      auto using andb_false_r.
    assert (u = w) as -> by (apply (NoDup_id_unique (windows (run os initial)));
                             auto).
    rewrite Hm. reflexivity.
  - intros os Hg. apply excl_guarded; [apply Inv_initial|constructor|exact Hg].
Qed.

Lemma minimized_focused_exclusive_witness :
  guarded initial [OpOpen (desc "chat"); OpMinimize "chat";
                   OpRestore "chat"; OpFocus "chat"] = true /\
  excl (windows (run [OpOpen (desc "chat"); OpMinimize "chat";
                      OpRestore "chat"; OpFocus "chat"] initial)) /\
  (let os := [OpOpen (desc "chat"); OpMinimize "chat"] in
   let w := w_minimize (of_desc 101 (desc "chat")) in
   In w (windows (run os initial)) /\ isMinimized w = true /\
   (exists v, In v (windows (focusWindow (id w) (run os initial))) /\
      id v = id w /\ isMinimized v = true /\ isFocused v = true) /\
   excl (windows (Desk.click_button w (run os initial)))).
Proof.
  assert (H : guarded initial [OpOpen (desc "chat"); OpMinimize "chat";
                   OpRestore "chat"; OpFocus "chat"] = true)
    by reflexivity.
  destruct minimized_focused_exclusive as [_ [_ [Hfoc [_ [Htb Hg]]]]].
  split; [exact H|split; [exact (Hg _ H)|]].
  intros os w.
  assert (Hw : In w (windows (run os initial))) by (simpl; left; reflexivity).
  assert (Hm : isMinimized w = true) by reflexivity.
  split; [exact Hw|split; [exact Hm|split]].
  - exact (Hfoc _ w Hw Hm).
  - exact (Htb os w Hw).
Defined.

(** C6: in every reachable state, right after [focus(id)] on a present id,
    the z-order value of that window strictly exceeds the z-order value of
    every other window. *)
Theorem focus_on_top (os : list op) (i : string) :
  In i (ids (run os initial)) ->
  forall w1 w2,
    In w1 (windows (focusWindow i (run os initial))) -> id w1 = i ->
    In w2 (windows (focusWindow i (run os initial))) -> id w2 <> i ->
    zIndex w2 < zIndex w1.
Proof.
  intros _ w1 w2 H1 Hi1 H2 Hi2.
  destruct (Inv_reachable os) as [_ Hz]. rewrite Forall_forall in Hz.
  apply In_map_id in H1 as [v1 [_ [[_ ->]|[Hv1 ->]]]];
    [|simpl in Hi1; contradiction].
  apply In_map_id in H2 as [v2 [Hv2 [[Hv2i ->]|[_ ->]]]];
    [simpl in Hi2; contradiction|].
  simpl. specialize (Hz v2 Hv2). lia.
Qed.

Lemma focus_on_top_witness :
  let os := [OpOpen (desc "chat"); OpOpen (desc "notes")] in
  In "chat"%string (ids (run os initial)) /\
  forall w1 w2,
    In w1 (windows (focusWindow "chat" (run os initial))) -> id w1 = "chat"%string ->
    In w2 (windows (focusWindow "chat" (run os initial))) -> id w2 <> "chat"%string ->
    zIndex w2 < zIndex w1.
Proof.
  intros os.
  assert (H : In "chat"%string (ids (run os initial))) by (simpl; left; reflexivity).
  split; [exact H|]. exact (focus_on_top os "chat" H).
Defined.

(** C8: in a reachable state, [open] with the id of a minimized record
    clears its [isMinimized], sets its [isFocused], gives it the next
    z-order value, clears [isFocused] on every other record and appends
    nothing. *)
Theorem open_minimized_restores (os : list op) (d : WindowDesc)
    (w : WindowState) :
  In w (windows (run os initial)) -> id w = d_id d -> isMinimized w = true ->
  let m := run os initial in
  let m' := openWindow d m in
  topZIndex m' = topZIndex m + 1 /\
  length (windows m') = length (windows m) /\
  forall k v, nth_error (windows m) k = Some v ->
    exists v', nth_error (windows m') k = Some v' /\ id v' = id v /\
      (id v = d_id d -> isMinimized v' = false /\ isFocused v' = true /\
                        zIndex v' = topZIndex m') /\
      (id v <> d_id d -> isFocused v' = false).
Proof.
  intros Hw Hi Hmin m m'. destruct (Inv_reachable os) as [Hnd _].
  assert (Hm' : windows m' =
                map_id (d_id d) (w_restore (topZIndex m + 1)) w_unfocus
                  (windows m)).
  { unfold m', openWindow. simpl.
    rewrite (find_id_unique (d_id d) (windows m) w Hnd Hw Hi), Hmin.
    reflexivity. }
  split; [reflexivity|]. split; [rewrite Hm'; apply map_id_length|].
  intros k v Hk. rewrite Hm', nth_error_map_id, Hk. simpl.
  eexists. split; [reflexivity|].
  destruct (String.eqb (id v) (d_id d)) eqn:E.
  - apply String.eqb_eq in E. repeat split; auto; contradiction.
  - apply String.eqb_neq in E. repeat split; auto; contradiction.
Qed.

Lemma open_minimized_restores_witness :
  let os := [OpOpen (desc "chat"); OpOpen (desc "notes"); OpMinimize "chat"] in
  exists w, In w (windows (run os initial)) /\ id w = d_id (desc "chat") /\
    isMinimized w = true /\
    length (windows (openWindow (desc "chat") (run os initial))) = 2%nat.
Proof.
  intros os. eexists.
  assert (Hw : In (w_minimize (w_unfocus (of_desc 101 (desc "chat"))))
                  (windows (run os initial))) by (simpl; left; reflexivity).
  split; [exact Hw|]. split; [reflexivity|]. split; [reflexivity|].
  destruct (open_minimized_restores os (desc "chat") _ Hw eq_refl eq_refl)
    as [_ [Hl _]].
  exact Hl.
Defined.

(** C10: in a reachable state, [open] with the id of a record that is not
    minimized keeps every field of that record except [isFocused] and
    [zIndex]; the geometry, title, icon, [isMaximized] and content of the
    new descriptor are discarded, and no record is appended. *)
Theorem open_existing_keeps_fields (os : list op) (d : WindowDesc)
    (w : WindowState) :
  In w (windows (run os initial)) -> id w = d_id d -> isMinimized w = false ->
  let m := run os initial in
  let m' := openWindow d m in
  length (windows m') = length (windows m) /\
  (exists v, In v (windows m') /\ id v = d_id d) /\
  forall v, In v (windows m') -> id v = d_id d -> same_except_focus_z w v.
Proof.
  intros Hw Hi Hmin m m'. destruct (Inv_reachable os) as [Hnd _].
  assert (Hm' : windows m' =
                map_id (d_id d) (w_focus (topZIndex m + 1)) w_unfocus
                  (windows m)).
  { unfold m', openWindow. simpl.
    rewrite (find_id_unique (d_id d) (windows m) w Hnd Hw Hi), Hmin.
    reflexivity. }
  split; [rewrite Hm'; apply map_id_length|]. split.
  - exists (w_focus (topZIndex m + 1) w). split; [|exact Hi].
    rewrite Hm'. unfold map_id. apply in_map_iff. exists w. split; [|exact Hw].
    rewrite Hi, String.eqb_refl. reflexivity.
  - intros v Hv Hvi. rewrite Hm' in Hv.
    apply In_map_id in Hv as [u [Hu [[Hui ->]|[Hui ->]]]];
      [|simpl in Hvi; contradiction].
    assert (u = w) as -> by (apply (NoDup_id_unique (windows m)); auto; congruence).
    repeat split.
Qed.

Lemma open_existing_keeps_fields_witness :
  let os := [OpOpen (desc "chat"); OpOpen (desc "notes")] in
  let d := mkDesc "chat" "Other" "x" 0 0 1 1 1 1 false true "other" in
  exists w, In w (windows (run os initial)) /\ id w = d_id d /\
    isMinimized w = false /\
    forall v, In v (windows (openWindow d (run os initial))) -> id v = d_id d ->
      same_except_focus_z w v.
Proof.
  intros os d. eexists.
  assert (Hw : In (w_unfocus (of_desc 101 (desc "chat")))
                  (windows (run os initial))) by (simpl; left; reflexivity).
  split; [exact Hw|]. split; [reflexivity|]. split; [reflexivity|].
  exact (proj2 (proj2 (open_existing_keeps_fields os d _ Hw eq_refl eq_refl))).
Defined.

End WMClaims.

(* ------------------------------------------------------------------ *)
(** ** Chat relay endpoint: claims *)

Module ChatClaims.
Import Chat.
Local Open Scope string_scope.
Local Open Scope list_scope.

Lemma filter_no_user ms :
  Forall (fun m => role m <> "user") ms -> filter is_user ms = [].
Proof.
  induction 1 as [|m ms Hm _ IH]; simpl; [reflexivity|].
  unfold is_user. destruct (String.eqb (role m) "user") eqn:E.
  - apply String.eqb_eq in E. contradiction.
  - exact IH.
Qed.

Lemma last_opt_snoc {A} (l : list A) (a : A) : last_opt (l ++ [a]) = Some a.
Proof.
  induction l as [|b l IH]; [reflexivity|].
  simpl. rewrite IH. destruct (l ++ [a]) eqn:E; [|reflexivity].
  destruct l; discriminate.
Qed.

Lemma firstn_length_cons {A} (a : A) (l : list A) :
  firstn (length l) (a :: l) = removelast (a :: l).
Proof.
  revert a. induction l as [|b l IH]; intros a; [reflexivity|].
  simpl length. cbn [firstn]. rewrite IH. reflexivity.
Qed.

Lemma slice_drop_last_removelast {A} (l : list A) :
  slice_drop_last l = removelast l.
Proof.
  unfold slice_drop_last. destruct l as [|a l]; [reflexivity|].
  assert (E : (length (a :: l) - 1 = length l)%nat) by (simpl; lia).
  rewrite E. apply firstn_length_cons.
Qed.

Lemma format_message_nonempty m : format_message m <> "".
Proof. unfold format_message. destruct (is_user m); discriminate. Qed.

Lemma transcript_empty_iff h : transcript h = "" <-> h = [].
Proof.
  split; [|intros ->; reflexivity].
  destruct h as [|m h]; [reflexivity|]. unfold transcript. simpl.
  destruct h as [|m' h]; simpl.
  - intros E. exfalso. exact (format_message_nonempty m E).
  - unfold format_message. destruct (is_user m); discriminate.
Qed.

Lemma frames_of_message_no_sentinel msg : ~ In FSentinel (frames_of_message msg).
Proof.
  destruct msg as [[[t|]|]|[bs|]|n e|sub|]; simpl;
    try (intuition discriminate).
  - induction bs as [|[n|] bs IH]; simpl; [tauto| |exact IH].
    intros [H|H]; [discriminate|exact (IH H)].
  - destruct (String.eqb sub "success"); simpl; intros [H|[]]; discriminate.
Qed.

Lemma POST_stream body call fr :
  POST body = RStream call fr -> fr = stream_frames.
Proof.
  destruct body as [[[ms|]|]|]; simpl; try discriminate.
  destruct (last_opt (filter is_user ms)); [|discriminate].
  intros H. injection H as _ <-. reflexivity.
Qed.

(** C2 (as stated, refuted): when consuming the upstream sequence throws,
    the stream ends with an error frame, not with the sentinel. *)
Lemma sentinel_counterexample :
  exists call fr,
    POST (BodyObject (Some (MArray [mkMsg "user" "hello"]))) = RStream call fr /\
    fr (mkUpstream [] true) = [FError "Stream error occurred"].
Proof. do 2 eexists. split; reflexivity. Qed.

(** C2 (amended): once the stream is opened, the frames forwarded from the
    upstream messages come first and are kept; when the upstream sequence
    completes without an exception (successful or not) the stream ends with
    the sentinel [data: [DONE]], and when it completes with a final
    [success] result the last two frames are [{type:"done"}] and the
    sentinel; when consuming it throws, the stream ends with
    [{type:"error", message:"Stream error occurred"}] and carries no
    sentinel. *)
Theorem stream_termination body call fr up :
  POST body = RStream call fr ->
  let fwd := flat_map frames_of_message (events up) in
  (throws up = false -> fr up = fwd ++ [FSentinel]) /\
  (throws up = false -> forall evs, events up = evs ++ [MsgResult "success"] ->
     fr up = flat_map frames_of_message evs ++ [FDone; FSentinel]) /\
  (throws up = true ->
     fr up = fwd ++ [FError "Stream error occurred"] /\ ~ In FSentinel (fr up)).
Proof.
  intros H fwd. apply POST_stream in H. subst fr. unfold stream_frames.
  split; [|split].
  - intros ->. reflexivity.
  - intros Ht evs He. rewrite Ht. unfold fwd. rewrite He, flat_map_app.
    simpl. rewrite <- app_assoc. reflexivity.
  - intros ->. split; [reflexivity|].
    intros Hin. apply in_app_or in Hin as [Hin|[Hin|[]]]; [|discriminate].
    apply in_flat_map in Hin as [msg [_ Hin]].
    exact (frames_of_message_no_sentinel msg Hin).
Qed.

Lemma stream_termination_witness :
  exists call fr,
    POST (BodyObject (Some (MArray [mkMsg "user" "hello"]))) = RStream call fr /\
    fr (mkUpstream [MsgStreamEvent (ContentBlockDelta (TextDelta "hi"));
                    MsgResult "success"] false) = [FTextDelta "hi"; FDone; FSentinel].
Proof.
  do 2 eexists. split; [reflexivity|].
  destruct (stream_termination
              (BodyObject (Some (MArray [mkMsg "user" "hello"]))) _ _
              (mkUpstream [MsgStreamEvent (ContentBlockDelta (TextDelta "hi"));
                           MsgResult "success"] false) eq_refl) as [_ [H _]].
  exact (H eq_refl [MsgStreamEvent (ContentBlockDelta (TextDelta "hi"))] eq_refl).
Defined.

(** C5: a body without [messages], or with a [messages] value that is not
    an array, gets an immediate [400] JSON response
    [{error: "Messages array is required"}]; an array with no message of
    role ["user"] gets an immediate [400] JSON response
    [{error: "No user message found"}]; neither opens a stream. *)
Theorem validation_errors :
  (forall mv, mv = None \/ mv = Some MNotArray ->
     POST (BodyObject mv) = RJson 400 (json_error "Messages array is required")) /\
  (forall ms, Forall (fun m => role m <> "user") ms ->
     POST (BodyObject (Some (MArray ms))) =
       RJson 400 (json_error "No user message found")).
Proof.
  split.
  - intros mv [-> | ->]; reflexivity.
  - intros ms H. simpl. rewrite filter_no_user by exact H. reflexivity.
Qed.

Lemma validation_errors_witness :
  POST (BodyObject None) = RJson 400 (json_error "Messages array is required") /\
  POST (BodyObject (Some (MArray [mkMsg "assistant" "hi"]))) =
    RJson 400 (json_error "No user message found").
Proof.
  split.
  - apply (proj1 validation_errors). left. reflexivity.
  - apply (proj2 validation_errors). constructor; [discriminate|constructor].
Defined.

(** C9: for a valid request (an array whose last message of role ["user"]
    is [u]), [POST] opens a stream whose upstream call has as prompt the
    fixed preamble, the transcript of every message but the last, and the
    content of [u], and a turn bound of 10. *)
Theorem prompt_construction (pre post : list MessageInput) (u : MessageInput) :
  role u = "user" -> Forall (fun m => role m <> "user") post ->
  let ms := pre ++ u :: post in
  exists call fr,
    POST (BodyObject (Some (MArray ms))) = RStream call fr /\
    prompt call = spec_prompt (removelast ms) u /\
    maxTurns call = 10%Z.
Proof.
  intros Hu Hpost ms.
  assert (Hl : last_opt (filter is_user ms) = Some u).
  { unfold ms. rewrite filter_app. simpl. unfold is_user at 2.
    rewrite Hu, String.eqb_refl, (filter_no_user post Hpost).
    apply last_opt_snoc. }
  unfold POST. cbv beta iota. rewrite Hl. cbv beta iota zeta.
  do 2 eexists. split; [reflexivity|]. split; [|reflexivity].
  cbn [prompt]. rewrite slice_drop_last_removelast. fold (transcript (removelast ms)).
  unfold spec_prompt.
  destruct (String.eqb (transcript (removelast ms)) "") eqn:E.
  - apply String.eqb_eq, transcript_empty_iff in E. rewrite E. reflexivity.
  - apply String.eqb_neq in E.
    destruct (removelast ms) eqn:R; [exfalso; apply E; reflexivity|].
    reflexivity.
Qed.

Lemma prompt_construction_witness :
  exists call fr,
    POST (BodyObject (Some (MArray ([mkMsg "user" "hi"; mkMsg "assistant" "yo"]
                                    ++ [mkMsg "user" "q"])))) = RStream call fr /\
    prompt call = spec_prompt [mkMsg "user" "hi"; mkMsg "assistant" "yo"]
                    (mkMsg "user" "q") /\
    maxTurns call = 10%Z.
Proof.
  exact (prompt_construction [mkMsg "user" "hi"; mkMsg "assistant" "yo"] []
           (mkMsg "user" "q") eq_refl (Forall_nil _)).
Defined.

End ChatClaims.

(* ------------------------------------------------------------------ *)
(** ** Folder view: claims *)

Module FVClaims.
Import FV.

Ltac ltb_false := rewrite (proj2 (Z.ltb_ge _ _)) by lia.
Ltac ltb_true := rewrite (proj2 (Z.ltb_lt _ _)) by lia.

(** From an idle view, time passing fires nothing. *)
Lemma advance_idle s t : idle s -> advance t s = s.
Proof.
  destruct s as [last cnt to ts nh sel tr]. unfold idle. simpl.
  intros [-> ->]. reflexivity.
Qed.

(** The first click on an item from an idle view: whatever the last
    clicked id was, the counter ends at 1 with one timer pending. *)
Lemma click_idle s t a :
  idle s ->
  handleItemClick t a s = pending a t (nextHandle s) (selectedId s) (trace s).
Proof.
  destruct s as [last cnt to ts nh sel tr]. unfold idle. simpl.
  intros [-> ->].
  unfold handleItemClick, pending. simpl.
  destruct (opt_string_eqb last (Some (fid a))); simpl;
    [reflexivity|destruct to; reflexivity].
Qed.

(** Time passes beyond the pending timer: it selects [a]. *)
Lemma advance_pending_fires a t h sel tr now :
  t + 250 < now ->
  advance now (pending a t h sel tr) =
    mkFV (Some (fid a)) 0 (Some h) [] (S h) (Some (fid a))
      (tr ++ [SingleSelect (fid a)]).
Proof. intros H. unfold advance, pending. simpl. ltb_true. reflexivity. Qed.

(** Time passes up to the pending timer's due time: nothing fires. *)
Lemma advance_pending_waits a t h sel tr now :
  now <= t + 250 -> advance now (pending a t h sel tr) = pending a t h sel tr.
Proof. intros H. unfold advance, pending. simpl. ltb_false. reflexivity. Qed.

(** A second click on the pending item: the timer is cleared and [onOpen]
    runs. *)
Lemma second_click_same a t h sel tr now :
  handleItemClick now a (pending a t h sel tr) =
    mkFV (Some (fid a)) 0 (Some h) [] (S h) (Some (fid a))
      (tr ++ (if hasOnOpen a then [OnOpen (fid a)] else [])).
Proof.
  unfold handleItemClick, pending, opt_string_eqb. cbn [lastClickedId].
  rewrite String.eqb_refl. cbv beta iota zeta.
  unfold clear_timeout. cbn. rewrite Nat.eqb_refl. reflexivity.
Qed.

(** A click on another item: the counter restarts and [a]'s timer is
    cleared. *)
Lemma second_click_other a b t h sel tr now :
  fid a <> fid b ->
  handleItemClick now b (pending a t h sel tr) =
    mkFV (Some (fid b)) 1 (Some (S h)) [mkTimer (S h) (now + 250) b]
      (S (S h)) sel tr.
Proof.
  intros Hab. apply String.eqb_neq in Hab.
  unfold handleItemClick, pending, opt_string_eqb. cbn [lastClickedId].
  rewrite Hab. cbv beta iota zeta.
  unfold clear_timeout. cbn. rewrite Nat.eqb_refl. reflexivity.
Qed.

Lemma settle_pending a t h sel tr :
  settle (pending a t h sel tr) =
    mkFV (Some (fid a)) 0 (Some h) [] (S h) (Some (fid a))
      (tr ++ [SingleSelect (fid a)]).
Proof. reflexivity. Qed.

Lemma settle_done l c h n sel tr :
  settle (mkFV l c h [] n sel tr) = mkFV l c h [] n sel tr.
Proof. reflexivity. Qed.

(** C7: from an idle view (no click pending), two clicks on an item with
    an [onOpen] callback at most 250 time-units apart call [onOpen]
    exactly once and select nothing through the timer; two clicks on the
    same item more than 250 time-units apart give two single-click
    selections and no [onOpen] call; a click on [a] followed within 250
    time-units by a click on a different item [b] calls [onOpen] for
    neither (only [b]'s own timer selects it afterwards). Timers fire
    before a click only when they fell due strictly earlier. *)
Theorem double_click_classification :
  (forall s a t d, idle s -> hasOnOpen a = true -> 0 <= d <= 250 ->
     trace (run_clicks [(t, a); (t + d, a)] s) = trace s ++ [OnOpen (fid a)]) /\
  (forall s a t d, idle s -> 250 < d ->
     trace (run_clicks [(t, a); (t + d, a)] s) =
       trace s ++ [SingleSelect (fid a); SingleSelect (fid a)]) /\
  (forall s a b t d, idle s -> fid a <> fid b -> 0 <= d <= 250 ->
     trace (run_clicks [(t, a); (t + d, b)] s) =
       trace s ++ [SingleSelect (fid b)]).
Proof.
  split; [|split].
  - intros s a t d Hs Ho Hd. unfold run_clicks. cbn [fold_left].
    rewrite (advance_idle s t Hs), (click_idle s t a Hs).
    rewrite advance_pending_waits by lia.
    rewrite second_click_same, settle_done, Ho. reflexivity.
  - intros s a t d Hs Hd. unfold run_clicks. cbn [fold_left].
    rewrite (advance_idle s t Hs), (click_idle s t a Hs).
    rewrite advance_pending_fires by lia.
    rewrite (click_idle _ (t + d) a) by (split; reflexivity).
    rewrite settle_pending. simpl. rewrite <- app_assoc. reflexivity.
  - intros s a b t d Hs Hab Hd. unfold run_clicks. cbn [fold_left].
    rewrite (advance_idle s t Hs), (click_idle s t a Hs).
    rewrite advance_pending_waits by lia.
    rewrite (second_click_other a b t _ _ _ _ Hab).
    reflexivity.
Qed.

Lemma double_click_classification_witness :
  let s := mkFV None 0 None [] 0 None [] in
  let a := mkItem "chat" "Chat" true in
  trace (run_clicks [(0, a); (0 + 120, a)] s) = [OnOpen "chat"%string].
Proof.
  intros s a.
  assert (Hs : idle s) by (split; reflexivity).
  exact (proj1 double_click_classification s a 0 120 Hs eq_refl
           ltac:(lia)).
Defined.

End FVClaims.


Module WMProps.
Import WM WMFacts WMExtra WMExamples.

(** A present record splits the list around it, with its id in neither part. *)
Lemma split_unique ws w :
  NoDup (map id ws) -> In w ws ->
  exists pre post, ws = pre ++ w :: post /\
    ~ In (id w) (map id pre) /\ ~ In (id w) (map id post).
Proof.
  intros Hnd Hw. apply in_split in Hw as [pre [post ->]].
  exists pre, post. split; [reflexivity|].
  rewrite map_app in Hnd. simpl in Hnd. apply NoDup_remove_2 in Hnd.
  split; intros H; apply Hnd; apply in_or_app; auto.
Qed.

Lemma map_id_split i f g pre w post :
  ~ In i (map id pre) -> ~ In i (map id post) -> id w = i ->
  map_id i f g (pre ++ w :: post) = map g pre ++ f w :: map g post.
Proof.
  intros Hpre Hpost Hi. unfold map_id at 1. rewrite map_app. simpl.
  rewrite Hi, String.eqb_refl.
  fold (map_id i f g pre). fold (map_id i f g post).
  rewrite !map_id_absent by assumption. reflexivity.
Qed.

(** What bringing the present record [w] to the front leaves: that record
    focused, not minimized, at [t + 1]; every other record unfocused below. *)
Lemma front_record ws t f w v :
  NoDup (map id ws) -> Forall (fun u => zIndex u <= t) ws -> In w ws ->
  isMinimized (f w) = false -> isFocused (f w) = true ->
  zIndex (f w) = t + 1 -> id (f w) = id w ->
  In v (map_id (id w) f w_unfocus ws) ->
  (id v = id w /\ isMinimized v = false /\ isFocused v = true /\ zIndex v = t + 1) \/
  (id v <> id w /\ isFocused v = false /\ zIndex v < t + 1).
Proof.
  intros Hnd Ht Hw Hm Hf Hz Hi Hv.
  apply In_map_id in Hv as [u [Hu [[Hui ->]|[Hui ->]]]].
  - assert (u = w) as -> by (apply (NoDup_id_unique ws); auto).
    left. repeat split; assumption.
  - right. rewrite Forall_forall in Ht. specialize (Ht u Hu). simpl. repeat split; [exact Hui|lia].
Qed.

(** X1 *)
(** In every state reachable from the initial one by the provider's
    operations, no two windows share a z-order value. *)
Theorem reachable_z_distinct os :
  NoDup (map zIndex (windows (run os initial))).
Proof. apply (InvZ_reachable os). Qed.

(** X2 *)
(** In every reachable state at most one window is focused, and a focused
    window is drawn above every other window. *)
Theorem reachable_focused_front os :
  let m := run os initial in
  (count_focused (windows m) <= 1)%nat /\
  forall w v, In w (windows m) -> In v (windows m) ->
    isFocused w = true -> v <> w -> zIndex v < zIndex w.
Proof.
  intros m. destruct (InvZ_reachable os) as [[_ Ht] [Hz Hf]]. fold m in Ht, Hz, Hf.
  split; [eapply count_focused_le1; eauto|].
  intros w v Hw Hv Fw Hvw. rewrite Forall_forall in Ht, Hf.
  rewrite (Hf w Hw Fw). specialize (Ht v Hv).
  assert (zIndex v <> zIndex w).
  { intros E. apply Hvw. apply (NoDup_map_inj zIndex (windows m)); auto. }
  rewrite <- (Hf w Hw Fw) in *. lia.
Qed.

(** X3 *)
(** The counter [topZIndex] grows by exactly one for each [open], [restore]
    and [focus] call, whatever its target, and by nothing for the others. *)
Theorem topZIndex_run os m :
  topZIndex (run os m) =
  topZIndex m + Z.of_nat (length (filter Desk.bumps_counter os)).
Proof.
  unfold run. revert m. induction os as [|o os IH]; simpl; intros m; [lia|].
  rewrite IH.
  destruct o as [d|i|i|i|i|i|i nx ny|i nw nh]; simpl; try lia;
    rewrite length_cons, Nat2Z.inj_succ; simpl;
    first [unfold openWindow | idtac]; simpl; lia.
Qed.

(** X4 *)
(** Maximizing the same window twice restores the state exactly. *)
Theorem maximize_twice i m : maximizeWindow i (maximizeWindow i m) = m.
Proof.
  destruct m as [ws t]. unfold maximizeWindow, map_id. simpl. f_equal.
  rewrite map_map. rewrite <- (List.map_id ws) at 2. apply map_ext.
  intros w. destruct (String.eqb (id w) i) eqn:E; unfold w_toggle_max; simpl;
    rewrite ?E, ?negb_involutive; destruct w; reflexivity.
Qed.

(** X5 *)
(** Restoring a window that was just minimized gives the same state as
    restoring it without the minimize: minimizing loses nothing. *)
Theorem restore_after_minimize i m :
  restoreWindow i (minimizeWindow i m) = restoreWindow i m.
Proof.
  destruct m as [ws t]. unfold restoreWindow, minimizeWindow, map_id. simpl.
  f_equal. rewrite map_map. apply map_ext. intros w.
  destruct (String.eqb (id w) i) eqn:E; simpl; rewrite ?E; reflexivity.
Qed.

(** X6 *)
(** In a reachable state, closing the id of a present window deletes
    exactly that record and keeps the others in order; the counter is
    unchanged. *)
Theorem close_removes_one os w :
  let m := run os initial in
  In w (windows m) ->
  exists pre post, windows m = pre ++ w :: post /\
    windows (closeWindow (id w) m) = pre ++ post /\
    topZIndex (closeWindow (id w) m) = topZIndex m.
Proof.
  intros m Hw. destruct (Inv_reachable os) as [Hnd _]. fold m in Hnd.
  destruct (split_unique _ _ Hnd Hw) as [pre [post [Hs [Hpre Hpost]]]].
  exists pre, post. split; [exact Hs|split; [|reflexivity]].
  unfold closeWindow. simpl. rewrite Hs, filter_app. simpl.
  rewrite String.eqb_refl. simpl. rewrite !filter_absent by assumption.
  reflexivity.
Qed.

(** X7 *)
(** In a reachable state, [updateWindowSize] and [updateWindowPosition] on a
    present window replace exactly its two fields by the given values, with
    no clamping to [minWidth]/[minHeight], and change no other record. *)
Theorem update_unclamped os w nw nh nx ny :
  let m := run os initial in
  In w (windows m) ->
  exists pre post, windows m = pre ++ w :: post /\
    windows (updateWindowSize (id w) nw nh m) =
      pre ++ mkWindow (id w) (title w) (icon w) (x w) (y w) nw nh
                (minWidth w) (minHeight w) (isMinimized w) (isMaximized w)
                (isFocused w) (zIndex w) (content w) :: post /\
    windows (updateWindowPosition (id w) nx ny m) =
      pre ++ mkWindow (id w) (title w) (icon w) nx ny (width w) (height w)
                (minWidth w) (minHeight w) (isMinimized w) (isMaximized w)
                (isFocused w) (zIndex w) (content w) :: post.
Proof.
  intros m Hw. destruct (Inv_reachable os) as [Hnd _]. fold m in Hnd.
  destruct (split_unique _ _ Hnd Hw) as [pre [post [Hs [Hpre Hpost]]]].
  exists pre, post. split; [exact Hs|].
  unfold updateWindowSize, updateWindowPosition. simpl. rewrite Hs.
  rewrite !map_id_split by (auto || reflexivity). rewrite !List.map_id.
  split; reflexivity.
Qed.

(** X8 *)
(** In a reachable state, a click on the taskbar button of a present window
    leaves that window focused, not minimized and on top, every other window
    unfocused below it, the clicked button the only highlighted one, no
    window both minimized and focused, and the set of windows unchanged. *)
Theorem taskbar_click os w :
  let m := run os initial in
  In w (windows m) ->
  let m' := Desk.click_button w m in
  ids m' = ids m /\ topZIndex m' = topZIndex m + 1 /\ excl (windows m') /\
  forall v, In v (windows m') ->
    Desk.highlighted v = String.eqb (id v) (id w) /\
    (id v = id w ->
       isMinimized v = false /\ isFocused v = true /\ zIndex v = topZIndex m') /\
    (id v <> id w -> isFocused v = false /\ zIndex v < topZIndex m').
Proof.
  intros m Hw m'. destruct (Inv_reachable os) as [Hnd Ht]. fold m in Hnd, Ht.
  assert (Hfront : exists f, windows m' = map_id (id w) f w_unfocus (windows m) /\
            topZIndex m' = topZIndex m + 1 /\
            isMinimized (f w) = false /\ isFocused (f w) = true /\
            zIndex (f w) = topZIndex m + 1 /\ id (f w) = id w /\
            (forall u, id (f u) = id u)).
  { unfold m', Desk.click_button, Desk.handleWindowClick.
    destruct (isMinimized w) eqn:Hm.
    - exists (w_restore (topZIndex m + 1)). repeat split; reflexivity.
    - exists (w_focus (topZIndex m + 1)). repeat split; simpl; auto. }
  destruct Hfront as [f [Hws [Htop [Hm [Hf [Hz [Hi Hif]]]]]]].
  assert (Hv : forall v, In v (windows m') ->
    (id v = id w /\ isMinimized v = false /\ isFocused v = true /\
     zIndex v = topZIndex m + 1) \/
    (id v <> id w /\ isFocused v = false /\ zIndex v < topZIndex m + 1)).
  { intros v Hin. rewrite Hws in Hin. eapply front_record; eauto. }
  split; [|split; [exact Htop|split]].
  - unfold ids. rewrite Hws. apply map_id_ids; [exact Hif|reflexivity].
  - apply Forall_forall. intros v Hin.
    destruct (Hv v Hin) as [[_ [-> _]]|[_ [-> _]]]; auto using andb_false_r.
  - intros v Hin. rewrite Htop.
    destruct (Hv v Hin) as [[Hi' [Hm' [Hf' Hz']]]|[Hi' [Hf' Hz']]].
    + unfold Desk.highlighted. rewrite Hm', Hf', Hi', String.eqb_refl.
      split; [reflexivity|split; [auto|intros []; reflexivity]].
    + unfold Desk.highlighted. rewrite Hf'.
      apply String.eqb_neq in Hi' as E. rewrite E.
      split; [reflexivity|split; [intros; contradiction|auto]].
Qed.

(** X9 *)
(** The three window-count gauges are consistent: the total is the sum of
    the open and the minimized counts. *)
Theorem gauges_partition ws :
  let '(total, open, minimized) := Desk.window_gauges ws in
  total = open + minimized.
Proof.
  unfold Desk.window_gauges. rewrite <- Nat2Z.inj_add. f_equal.
  induction ws as [|w ws IH]; simpl; [reflexivity|].
  destruct (isMinimized w); simpl; lia.
Qed.

Lemma ex_nth_0_In : In (ex_nth 0) (windows (run ex_ops initial)).
Proof. apply nth_In. vm_compute. lia. Defined.

(** The minimized notepad of the sample session is closed. *)
Lemma close_removes_one_witness :
  In (ex_nth 0) (windows (run ex_ops initial)) /\
  exists pre post, windows (run ex_ops initial) = pre ++ ex_nth 0 :: post /\
    windows (closeWindow (id (ex_nth 0)) (run ex_ops initial)) = pre ++ post /\
    topZIndex (closeWindow (id (ex_nth 0)) (run ex_ops initial)) =
      topZIndex (run ex_ops initial).
Proof.
  split; [exact ex_nth_0_In|].
  exact (close_removes_one ex_ops (ex_nth 0) ex_nth_0_In).
Defined.

(** Resized to 10 x 10, below its minimum of 300 x 200, and moved off
    screen. *)
Lemma update_unclamped_witness :
  In (ex_nth 0) (windows (run ex_ops initial)) /\
  let w := ex_nth 0 in
  exists pre post, windows (run ex_ops initial) = pre ++ w :: post /\
    windows (updateWindowSize (id w) 10 10 (run ex_ops initial)) =
      pre ++ mkWindow (id w) (title w) (icon w) (x w) (y w) 10 10
                (minWidth w) (minHeight w) (isMinimized w) (isMaximized w)
                (isFocused w) (zIndex w) (content w) :: post /\
    windows (updateWindowPosition (id w) (-5000) (-5000) (run ex_ops initial)) =
      pre ++ mkWindow (id w) (title w) (icon w) (-5000) (-5000) (width w)
                (height w) (minWidth w) (minHeight w) (isMinimized w)
                (isMaximized w) (isFocused w) (zIndex w) (content w) :: post.
Proof.
  split; [exact ex_nth_0_In|].
  exact (update_unclamped ex_ops (ex_nth 0) 10 10 (-5000) (-5000) ex_nth_0_In).
Defined.

(** A click on the button of the minimized notepad. *)
Lemma taskbar_click_witness :
  In (ex_nth 0) (windows (run ex_ops initial)) /\
  let m := run ex_ops initial in
  let m' := Desk.click_button (ex_nth 0) m in
  ids m' = ids m /\ topZIndex m' = topZIndex m + 1 /\ excl (windows m') /\
  forall v, In v (windows m') ->
    Desk.highlighted v = String.eqb (id v) (id (ex_nth 0)) /\
    (id v = id (ex_nth 0) ->
       isMinimized v = false /\ isFocused v = true /\ zIndex v = topZIndex m') /\
    (id v <> id (ex_nth 0) -> isFocused v = false /\ zIndex v < topZIndex m').
Proof.
  split; [exact ex_nth_0_In|].
  exact (taskbar_click ex_ops (ex_nth 0) ex_nth_0_In).
Defined.

End WMProps.

(* ------------------------------------------------------------------ *)
(** ** Chat stream: forwarding *)

Module ChatProps.
Import Chat ChatObs.

Lemma frame_texts_app a b : frame_texts (app a b) = app (frame_texts a) (frame_texts b).
Proof. apply flat_map_app. Qed.

Lemma frame_tools_app a b : frame_tools (app a b) = app (frame_tools a) (frame_tools b).
Proof. apply flat_map_app. Qed.

Lemma count_frames_app p a b :
  count_frames p (app a b) = (count_frames p a + count_frames p b)%nat.
Proof. unfold count_frames. rewrite filter_app, length_app. reflexivity. Qed.

Lemma block_frames_texts bs : frame_texts (block_frames bs) = [].
Proof. induction bs as [|[n|] bs IH]; simpl; auto. Qed.

Lemma block_frames_tools bs :
  frame_tools (block_frames bs) =
  flat_map (fun b => match b with ToolUse n => [n] | OtherBlock => [] end) bs.
Proof. induction bs as [|[n|] bs IH]; simpl; rewrite ?IH; auto. Qed.

Lemma block_frames_count p bs :
  p (FToolStart "") = false -> (forall n, p (FToolStart n) = p (FToolStart "")) ->
  count_frames p (block_frames bs) = 0%nat.
Proof.
  intros H0 Hn. unfold count_frames.
  induction bs as [|[n|] bs IH]; simpl; auto. rewrite Hn, H0. exact IH.
Qed.

Lemma loop_texts evs : frame_texts (flat_map frames_of_message evs) = upstream_texts evs.
Proof.
  induction evs as [|e evs IH]; simpl; [reflexivity|].
  rewrite frame_texts_app, IH. f_equal.
  destruct e as [[[t|]|]|[bs|]|n el|sub|]; simpl; auto.
  - apply block_frames_texts.
  - destruct (String.eqb sub "success"); reflexivity.
Qed.

Lemma loop_tools evs : frame_tools (flat_map frames_of_message evs) = upstream_tools evs.
Proof.
  induction evs as [|e evs IH]; simpl; [reflexivity|].
  rewrite frame_tools_app, IH. f_equal.
  destruct e as [[[t|]|]|[bs|]|n el|sub|]; simpl; auto.
  - apply block_frames_tools.
  - destruct (String.eqb sub "success"); reflexivity.
Qed.

Lemma msg_done e :
  count_frames is_done (frames_of_message e) =
  (if result_is (fun s => String.eqb s "success") e then 1 else 0)%nat.
Proof.
  destruct e as [[[t|]|]|[bs|]|n el|sub|]; try reflexivity.
  - exact (block_frames_count is_done bs eq_refl (fun _ => eq_refl)).
  - simpl. destruct (String.eqb sub "success"); reflexivity.
Qed.

Lemma msg_query_error e :
  count_frames is_query_error (frames_of_message e) =
  (if result_is (fun s => negb (String.eqb s "success")) e then 1 else 0)%nat.
Proof.
  destruct e as [[[t|]|]|[bs|]|n el|sub|]; try reflexivity.
  - exact (block_frames_count is_query_error bs eq_refl (fun _ => eq_refl)).
  - simpl. destruct (String.eqb sub "success"); reflexivity.
Qed.

Lemma loop_results p (q : Frame -> bool) evs :
  (forall e, count_frames q (frames_of_message e) =
             (if result_is p e then 1 else 0)%nat) ->
  count_frames q (flat_map frames_of_message evs) = count_results p evs.
Proof.
  intros He. unfold count_results. induction evs as [|e evs IH]; [reflexivity|].
  cbn [flat_map filter]. rewrite count_frames_app, IH, He.
  unfold result_is. destruct (match e with MsgResult s => p s | _ => false end);
    reflexivity.
Qed.

(** X10 *)
(** The [text_delta] frames sent to the browser carry exactly the upstream
    text deltas, in order, whether or not the upstream iteration throws. *)
Theorem stream_texts_forwarded up :
  frame_texts (stream_frames up) = upstream_texts (events up).
Proof.
  unfold stream_frames. destruct (throws up);
    rewrite frame_texts_app, loop_texts; simpl; apply app_nil_r.
Qed.

(** X11 *)
(** The [tool_start] frames name exactly the tool-use blocks of the
    upstream assistant messages, in order. *)
Theorem stream_tools_forwarded up :
  frame_tools (stream_frames up) = upstream_tools (events up).
Proof.
  unfold stream_frames. destruct (throws up);
    rewrite frame_tools_app, loop_tools; simpl; apply app_nil_r.
Qed.

(** X12 *)
(** The stream holds one [done] frame per upstream result with subtype
    [success], and one "Query did not complete successfully" error frame
    per upstream result with any other subtype. *)
Theorem stream_results_forwarded up :
  count_frames is_done (stream_frames up) =
    count_results (fun s => String.eqb s "success") (events up) /\
  count_frames is_query_error (stream_frames up) =
    count_results (fun s => negb (String.eqb s "success")) (events up).
Proof.
  unfold stream_frames. destruct (throws up);
    rewrite !count_frames_app, (loop_results _ _ _ msg_done),
      (loop_results _ _ _ msg_query_error);
    unfold count_frames; simpl; split; lia.
Qed.

End ChatProps.

(* ------------------------------------------------------------------ *)
(** ** Folder view: click runs *)

Module FVProps.
Import FV FVRuns.

Ltac ltb_false := rewrite (proj2 (Z.ltb_ge _ _)) by lia.
Ltac ltb_true := rewrite (proj2 (Z.ltb_lt _ _)) by lia.

Lemma idle_advance s t : idle s -> advance t s = s.
Proof.
  destruct s as [last cnt to ts nh sel tr]. unfold idle. simpl.
  intros [-> ->]. reflexivity.
Qed.

Lemma idle_settle s : idle s -> settle s = s.
Proof.
  destruct s as [last cnt to ts nh sel tr]. unfold idle. simpl.
  intros [-> ->]. reflexivity.
Qed.

Lemma idle_click s t a :
  idle s ->
  handleItemClick t a s =
    waiting a (t + 250) (nextHandle s) (S (nextHandle s)) (selectedId s) (trace s).
Proof.
  destruct s as [last cnt to ts nh sel tr]. unfold idle. simpl.
  intros [-> ->].
  unfold handleItemClick, waiting. simpl.
  destruct (opt_string_eqb last (Some (fid a))); simpl;
    [reflexivity|destruct to; reflexivity].
Qed.

Lemma waiting_fires b d h nh sel tr now :
  d < now ->
  advance now (waiting b d h nh sel tr) =
    mkFV (Some (fid b)) 0 (Some h) [] nh (Some (fid b))
      (tr ++ [SingleSelect (fid b)]).
Proof. intros H. unfold advance, waiting. simpl. ltb_true. reflexivity. Qed.

Lemma waiting_waits b d h nh sel tr now :
  now <= d -> advance now (waiting b d h nh sel tr) = waiting b d h nh sel tr.
Proof. intros H. unfold advance, waiting. simpl. ltb_false. reflexivity. Qed.

Lemma waiting_click_same a b d h nh sel tr now :
  fid a = fid b ->
  handleItemClick now a (waiting b d h nh sel tr) =
    mkFV (Some (fid a)) 0 (Some h) [] nh (Some (fid a))
      (tr ++ (if hasOnOpen a then [OnOpen (fid a)] else [])).
Proof.
  intros Hab.
  unfold handleItemClick, waiting, opt_string_eqb. cbn [lastClickedId].
  rewrite Hab, String.eqb_refl. cbv beta iota zeta.
  unfold clear_timeout. cbn. rewrite Nat.eqb_refl. reflexivity.
Qed.

Lemma waiting_click_other a b d h nh sel tr now :
  fid a <> fid b ->
  handleItemClick now a (waiting b d h nh sel tr) =
    waiting a (now + 250) nh (S nh) sel tr.
Proof.
  intros Hab. assert (E : String.eqb (fid b) (fid a) = false)
    by (apply String.eqb_neq; auto).
  unfold handleItemClick, waiting, opt_string_eqb. cbn [lastClickedId].
  rewrite E. cbv beta iota zeta.
  unfold clear_timeout. cbn. rewrite Nat.eqb_refl. reflexivity.
Qed.

Lemma waiting_settle b d h nh sel tr :
  settle (waiting b d h nh sel tr) =
    mkFV (Some (fid b)) 0 (Some h) [] nh (Some (fid b))
      (tr ++ [SingleSelect (fid b)]).
Proof. reflexivity. Qed.

Lemma clicks_only_cons now it cs s :
  clicks_only ((now, it) :: cs) s =
  clicks_only cs (handleItemClick now it (advance now s)).
Proof. reflexivity. Qed.

Lemma clicks_only_app cs1 cs2 s :
  clicks_only (cs1 ++ cs2) s = clicks_only cs2 (clicks_only cs1 s).
Proof. unfold clicks_only. apply fold_left_app. Qed.

Lemma run_clicks_settle cs s : run_clicks cs s = settle (clicks_only cs s).
Proof. reflexivity. Qed.

(** One click from a state satisfying [fv_ok]: either it completes a double
    click (nothing pending, the item selected), or it leaves one click on
    it pending. *)
Lemma click_outcome s now a :
  fv_ok s ->
  let s' := handleItemClick now a (advance now s) in
  (idle s' /\ selectedId s' = Some (fid a)) \/
  exists h nh sel tr, s' = waiting a (now + 250) h nh sel tr.
Proof.
  intros [Hi|[b [d [h [nh [sel [tr ->]]]]]]] s'; unfold s'.
  - rewrite (idle_advance s now Hi), (idle_click s now a Hi). right. eauto.
  - destruct (Z_lt_le_dec d now) as [Hd|Hd].
    + rewrite waiting_fires by exact Hd.
      rewrite idle_click by (split; reflexivity). right. eauto.
    + rewrite waiting_waits by exact Hd.
      destruct (string_dec (fid a) (fid b)) as [Hab|Hab].
      * rewrite waiting_click_same by exact Hab. left.
        split; [split|]; reflexivity.
      * rewrite waiting_click_other by exact Hab. right. eauto.
Qed.

Lemma click_ok s now a : fv_ok s -> fv_ok (handleItemClick now a (advance now s)).
Proof.
  intros Hs. destruct (click_outcome s now a Hs) as [[Hi _]|[h [nh [sel [tr E]]]]].
  - left. exact Hi.
  - right. rewrite E. eauto 7.
Qed.

Lemma clicks_ok cs s : fv_ok s -> fv_ok (clicks_only cs s).
Proof.
  revert s. induction cs as [|[now a] cs IH]; intros s Hs; [exact Hs|].
  rewrite clicks_only_cons. apply IH. apply click_ok. exact Hs.
Qed.

(** [k .. k + 2p - 1] rapid clicks on [a] from an idle view: [p] double
    clicks. *)
Lemma rapid_pairs a t g p k s :
  idle s -> hasOnOpen a = true -> g <= 250 ->
  idle (clicks_only (rapid a t g k (2 * p)) s) /\
  trace (clicks_only (rapid a t g k (2 * p)) s) =
    trace s ++ repeat (OnOpen (fid a)) p.
Proof.
  intros Hs Ho Hg. revert k s Hs. induction p as [|p IH]; intros k s Hs.
  - simpl. rewrite app_nil_r. auto.
  - replace (2 * S p)%nat with (S (S (2 * p))) by lia.
    unfold rapid. cbn [seq map]. rewrite !clicks_only_cons.
    rewrite (idle_advance s _ Hs), (idle_click s _ a Hs).
    rewrite waiting_waits by lia.
    rewrite waiting_click_same by reflexivity. rewrite Ho.
    fold (rapid a t g (S (S k)) (2 * p)).
    match goal with
    | |- context [clicks_only _ ?s'] =>
        destruct (IH (S (S k)) s') as [Hi Htr]; [split; reflexivity|]
    end.
    split; [exact Hi|]. rewrite Htr. simpl.
    rewrite <- app_assoc. reflexivity.
Qed.

(** X13 *)
(** From an idle view, after any sequence of clicks, either no click is
    pending (counter 0, no timer) or exactly one is: counter 1, one timer,
    whose handle is the one in [clickTimeoutRef] and whose item is the last
    clicked one. The counter never reaches 3 and timers never pile up. *)
Theorem clicks_keep_one_pending cs s :
  idle s -> fv_ok (clicks_only cs s).
Proof. intros Hs. apply clicks_ok. left. exact Hs. Qed.

(** X14 *)
(** From an idle view, once every pending timer has fired, the selected
    item is the last one clicked, whether that click completed a double
    click or was left as a single click. *)
Theorem last_click_selected cs now a s :
  idle s -> selectedId (run_clicks (cs ++ [(now, a)]) s) = Some (fid a).
Proof.
  intros Hs. rewrite run_clicks_settle, clicks_only_app, clicks_only_cons.
  pose proof (clicks_ok cs s (or_introl Hs)) as Hok.
  destruct (click_outcome _ now a Hok) as [[Hi Hsel]|[h [nh [sel [tr E]]]]];
    cbn [clicks_only fold_left].
  - rewrite idle_settle by exact Hi. exact Hsel.
  - rewrite E, waiting_settle. reflexivity.
Qed.

(** X15 *)
(** From an idle view, [2p] clicks on an item with [onOpen], each at most
    250 time-units after the previous one, call [onOpen] [p] times and
    select nothing through the timer; [2p + 1] such clicks do the same and
    then select the item once, when the last timer fires. *)
Theorem rapid_clicks s a t g p :
  idle s -> hasOnOpen a = true -> g <= 250 ->
  trace (run_clicks (rapid a t g 0 (2 * p)) s) =
    trace s ++ repeat (OnOpen (fid a)) p /\
  trace (run_clicks (rapid a t g 0 (2 * p + 1)) s) =
    trace s ++ repeat (OnOpen (fid a)) p ++ [SingleSelect (fid a)].
Proof.
  intros Hs Ho Hg.
  destruct (rapid_pairs a t g p 0 s Hs Ho Hg) as [Hi Htr].
  split.
  - rewrite run_clicks_settle, idle_settle by exact Hi. exact Htr.
  - unfold rapid. rewrite seq_app, map_app. fold (rapid a t g 0 (2 * p)).
    rewrite run_clicks_settle, clicks_only_app.
    cbn [seq map]. rewrite clicks_only_cons.
    rewrite (idle_advance _ _ Hi), (idle_click _ _ a Hi).
    cbn [clicks_only fold_left]. rewrite waiting_settle. cbn [trace].
    rewrite Htr, <- app_assoc. reflexivity.
Qed.

(** A fresh view: no click yet. *)
Lemma clicks_keep_one_pending_witness :
  let s := mkFV None 0 None [] 0 None [] in
  let a := mkItem "notes" "Notes" true in
  let b := mkItem "chat" "Chat" true in
  idle s /\ fv_ok (clicks_only [(0, a); (100, b); (200, b); (300, a)] s).
Proof.
  intros s a b. assert (Hs : idle s) by (split; reflexivity).
  split; [exact Hs|]. exact (clicks_keep_one_pending _ s Hs).
Defined.

Lemma last_click_selected_witness :
  let s := mkFV None 0 None [] 0 None [] in
  let a := mkItem "notes" "Notes" true in
  let b := mkItem "chat" "Chat" true in
  idle s /\
  selectedId (run_clicks ([(0, a); (100, b)] ++ [(150, b)]) s) = Some "chat"%string.
Proof.
  intros s a b. assert (Hs : idle s) by (split; reflexivity).
  split; [exact Hs|]. exact (last_click_selected [(0, a); (100, b)] 150 b s Hs).
Defined.

Lemma rapid_clicks_witness :
  let s := mkFV None 0 None [] 0 None [] in
  let a := mkItem "chat" "Chat" true in
  idle s /\ hasOnOpen a = true /\ 200 <= 250 /\
  trace (run_clicks (rapid a 0 200 0 (2 * 2)) s) =
    trace s ++ repeat (OnOpen (fid a)) 2 /\
  trace (run_clicks (rapid a 0 200 0 (2 * 2 + 1)) s) =
    trace s ++ repeat (OnOpen (fid a)) 2 ++ [SingleSelect (fid a)].
Proof.
  intros s a. assert (Hs : idle s) by (split; reflexivity).
  split; [exact Hs|split; [reflexivity|split; [lia|]]].
  exact (rapid_clicks s a 0 200 2 Hs eq_refl ltac:(lia)).
Defined.

End FVProps.

(* ------------------------------------------------------------------ *)
(** ** Metrics wrapper *)

Module MetricsProps.
Import Metrics.
Local Open Scope string_scope.

Lemma obj_get_set k k' v o :
  obj_get k (obj_set k' v o) =
  if String.eqb k' k then Some v else obj_get k o.
Proof.
  induction o as [|[k0 v0] o IH]; simpl; [reflexivity|].
  destruct (String.eqb_spec k0 k') as [->|Hne]; simpl.
  - destruct (String.eqb k' k); reflexivity.
  - rewrite IH. destruct (String.eqb_spec k0 k) as [->|Hk];
      destruct (String.eqb_spec k' k) as [->|Hk']; congruence.
Qed.

Lemma obj_get_fold k ts base acc base0 :
  obj_get k base = match acc with Some t => Some (JStr t) | None => obj_get k base0 end ->
  obj_get k (fold_left (fun o '(k', v) => obj_set k' (JStr v) o) ts base) =
  match fold_left (fun acc '(k', v) => if String.eqb k' k then Some v else acc) ts acc
  with Some t => Some (JStr t) | None => obj_get k base0 end.
Proof.
  revert base acc. induction ts as [|[k' v] ts IH]; simpl; intros base acc H; [exact H|].
  apply IH. rewrite obj_get_set. destruct (String.eqb k' k); [reflexivity|exact H].
Qed.

(** Reading the spread object: tags win over the built-in fields. *)
Lemma spread_get k base ts : obj_get k (spread_tags base ts) = tags_over ts base k.
Proof.
  unfold spread_tags, tags_over, tag_value. destruct ts as [ts|]; [|reflexivity].
  apply obj_get_fold. reflexivity.
Qed.

(** X16 *)
(** Each wrapper makes exactly one Sentry call when [Sentry.metrics] and
    the method exist, passing the options unchanged ([increment]'s value
    defaulting to 1); otherwise it records exactly one debug breadcrumb
    "Metric: <name>" whose data holds [metric], [value], [type] (and
    [unit] for a distribution), each overridden by a tag of the same name,
    plus the other tags. *)
Theorem metrics_dispatch env name value v options :
  let tg := opt_tags options in
  let v1 := match value with Some v => v | None => 1 end in
  (metrics_present env && increment_is_fn env = true ->
     increment env name value options = [MetricCall "increment" name v1 options]) /\
  (metrics_present env && increment_is_fn env = false ->
     exists data, increment env name value options = [fallback name data] /\
     forall k, obj_get k data =
       tags_over tg [("metric", JStr name); ("value", JNum v1);
                     ("type", JStr "increment")] k) /\
  (metrics_present env && gauge_is_fn env = true ->
     gauge env name v options = [MetricCall "gauge" name v options]) /\
  (metrics_present env && gauge_is_fn env = false ->
     exists data, gauge env name v options = [fallback name data] /\
     forall k, obj_get k data =
       tags_over tg [("metric", JStr name); ("value", JNum v);
                     ("type", JStr "gauge")] k) /\
  (metrics_present env && distribution_is_fn env = true ->
     distribution env name v options = [MetricCall "distribution" name v options]) /\
  (metrics_present env && distribution_is_fn env = false ->
     exists data, distribution env name v options = [fallback name data] /\
     forall k, obj_get k data =
       tags_over tg [("metric", JStr name); ("value", JNum v);
                     ("type", JStr "distribution"); ("unit", opt_unit options)] k).
Proof.
  intros tg v1. unfold increment, gauge, distribution.
  repeat split; intros H; rewrite H;
    first [ reflexivity
          | eexists; split; [reflexivity|intros k; apply spread_get] ].
Qed.

(** Without [Sentry.metrics], a gauge tagged [type: custom] reports the tag
    in place of the built-in type, and keeps its value. *)
Lemma metrics_dispatch_witness :
  let env := mkEnv false false false false in
  let opts := Some (mkOptions (Some [("type", "custom"); ("route", "chat")]) None) in
  metrics_present env && gauge_is_fn env = false /\
  exists data, gauge env "window.count.open" 3 opts =
                 [fallback "window.count.open" data] /\
    obj_get "type" data = Some (JStr "custom") /\
    obj_get "value" data = Some (JNum 3) /\
    obj_get "route" data = Some (JStr "chat").
Proof.
  intros env opts. split; [reflexivity|].
  destruct (proj1 (proj2 (proj2 (proj2
    (metrics_dispatch env "window.count.open" None 3 opts)))) eq_refl)
    as [data [Hd Hk]].
  exists data. split; [exact Hd|].
  rewrite !Hk. vm_compute. repeat split; reflexivity.
Defined.

End MetricsProps.
